(** * AtFoodAI backend: a shallow embedding of [backend/app.py]

    The request pipeline of the gateway (authenticate, rate-limit, render
    the prompt, call the model, normalise its answer, price it, persist it,
    respond) is translated definition by definition from [app.py].  Python
    objects become records, [Optional] fields become [option], a [str] is
    kept as its UTF-8 encoding, a [Decimal] is the value of the [decimal]
    module with the arithmetic of its default context, the module-level
    [_rate_buckets] dictionary becomes a [gmap], and the two external
    collaborators (the model provider and the MySQL store) are inputs of
    the handler. *)

From Stdlib Require Import ZArith QArith Qpower Lia Ascii.
From stdpp Require Import base option list sorting strings gmap.

Local Open Scope string_scope.
Local Open Scope list_scope.

(** ** Python values *)

(** The line feed of the ["\n"] escapes in the templates. *)
Definition LF : string := String "010"%char "".

(** Truth value of a [str]: only the empty string is falsy. *)
Definition truthy (s : string) : bool :=
  match s with
  | EmptyString => false
  | String _ _ => true
  end.

(** [x or d] for [x : Optional[str]] and a string [d]: [None] and [''] are
    both falsy, so both give [d]. *)
Definition py_or (x : option string) (d : string) : string :=
  match x with
  | Some s => if truthy s then s else d
  | None => d
  end.

(** What an f-string field [{x}] prints for [x : Optional[str]]. *)
Definition py_format (x : option string) : string :=
  match x with
  | Some s => s
  | None => "None"
  end.

(** An attribute probed with [getattr(obj, name, default)]: it can be
    missing from the object, present with value [None], or present with a
    proper value. *)
Inductive attr (A : Type) : Type :=
  | Missing
  | Null
  | Has (a : A).
Arguments Missing {A}.
Arguments Null {A}.
Arguments Has {A} a.

(** [getattr(obj, name, default)], the Python value [None] being [None]. *)
Definition getattr {A : Type} (x : attr A) (default : option A) : option A :=
  match x with
  | Missing => default
  | Null => None
  | Has a => Some a
  end.

(** [x] as a condition, for [x : Optional[str]]. *)
Definition truthy_opt (x : option string) : bool :=
  match x with
  | Some s => truthy s
  | None => false
  end.

(** A [str] is kept as its UTF-8 encoding, one [ascii] per byte; a
    character is the string of its one to four bytes. *)
Definition utf8 (bytes : list nat) : string :=
  foldr (λ byte s, String (ascii_of_nat byte) s) EmptyString bytes.

(** The characters for which [str.isspace] holds, which are the ones that
    [str.strip] removes: U+0009 to U+000D, U+001C to U+0020, U+0085,
    U+00A0, U+1680, U+2000 to U+200A, U+2028, U+2029, U+202F, U+205F and
    U+3000. *)
Definition whitespace : list string :=
  map utf8
    [ [9]; [10]; [11]; [12]; [13]; [28]; [29]; [30]; [31]; [32];
      [194; 133]; [194; 160]; [225; 154; 128];
      [226; 128; 128]; [226; 128; 129]; [226; 128; 130]; [226; 128; 131];
      [226; 128; 132]; [226; 128; 133]; [226; 128; 134]; [226; 128; 135];
      [226; 128; 136]; [226; 128; 137]; [226; 128; 138];
      [226; 128; 168]; [226; 128; 169]; [226; 128; 175];
      [226; 129; 159]; [227; 128; 128] ]%nat.

(** [ch.isspace()] for one character. *)
Definition isspace (ch : string) : bool := bool_decide (ch ∈ whitespace).

(** [s.lstrip()]: a whitespace character has one, two or three bytes. *)
Fixpoint lstrip (s : string) : string :=
  match s with
  | EmptyString => EmptyString
  | String c1 s1 =>
      if isspace (String c1 EmptyString) then lstrip s1
      else
        match s1 with
        | EmptyString => s
        | String c2 s2 =>
            if isspace (String c1 (String c2 EmptyString)) then lstrip s2
            else
              match s2 with
              | EmptyString => s
              | String c3 s3 =>
                  if isspace (String c1 (String c2 (String c3 EmptyString)))
                  then lstrip s3
                  else s
              end
        end
  end.

(** [s.rstrip()]: once the rest is trimmed, the string is all whitespace
    exactly when what is kept is one whitespace character. *)
Fixpoint rstrip (s : string) : string :=
  match s with
  | EmptyString => EmptyString
  | String c rest =>
      let kept := rstrip rest in
      if isspace (String c kept) then EmptyString else String c kept
  end.

(** [s.strip()]. *)
Definition strip (s : string) : string := rstrip (lstrip s).

(** Whether the string begins with a whitespace character. *)
Definition starts_with_whitespace (s : string) : bool :=
  match s with
  | EmptyString => false
  | String c1 s1 =>
      isspace (String c1 EmptyString)
      || match s1 with
         | EmptyString => false
         | String c2 s2 =>
             isspace (String c1 (String c2 EmptyString))
             || match s2 with
                | EmptyString => false
                | String c3 _ =>
                    isspace (String c1 (String c2 (String c3 EmptyString)))
                end
         end
  end.

(** A string that is empty or made of whitespace characters only. *)
Inductive blank : string → Prop :=
  | blank_nil : blank EmptyString
  | blank_cons ch s : isspace ch = true → blank s → blank (ch +:+ s).

(** ** [decimal.Decimal]

    Arithmetic runs in the default context: 28 significant digits, rounding
    half to even, exponents between [Emin = -999999] and [Emax = 999999],
    and the traps [InvalidOperation], [DivisionByZero] and [Overflow].
    Every operation deals with the special values first, computes the exact
    result otherwise, and brings it into the context ([_fix]). *)

Local Open Scope Z_scope.

(** A decimal is what Python keeps: a finite number is a sign, a
    non-negative integer coefficient and an exponent, standing for
    [(-1)^sign * coefficient * 10^exponent]; the special values are the two
    infinities and the quiet and signaling NaNs, each with a sign and, for
    a NaN, a payload. *)
Inductive Decimal : Type :=
  | mkDecimal (sign : bool) (coefficient exponent : Z)
  | Infinity (sign : bool)
  | NaN (sign : bool) (payload : Z)
  | sNaN (sign : bool) (payload : Z).

(** The signals that the default context traps: an operation that signals
    one of them raises it. *)
Inductive Signal : Type :=
  | InvalidOperation
  | DivisionByZero
  | Overflow.

(** The default context: [prec], [Emax], [Emin], and the derived [Etiny()]
    and [Etop()]. *)
Definition prec : Z := 28.
Definition Emax : Z := 999999.
Definition Emin : Z := -999999.
Definition Etiny : Z := Emin - prec + 1.
Definition Etop : Z := Emax - prec + 1.

Fixpoint num_digits_aux (fuel : nat) (n : Z) : Z :=
  match fuel with
  | O => 1
  | S fuel' => if n <? 10 then 1 else 1 + num_digits_aux fuel' (n / 10)
  end.

(** [len(str(n))] for [n >= 0]. *)
Definition num_digits (n : Z) : Z :=
  num_digits_aux (Z.to_nat (Z.log2 n)) n.

(** Rounding half to even of [n / 10^k]. *)
Definition round_half_even (n k : Z) : Z :=
  let q := n / 10 ^ k in
  let r := n mod 10 ^ k in
  if (10 ^ k <? 2 * r) || ((2 * r =? 10 ^ k) && Z.odd q) then q + 1 else q.

(** [Decimal._fix_nan]: a payload longer than [prec] digits loses its
    leading digits. *)
Definition fix_nan (payload : Z) : Z :=
  if prec <? num_digits payload then payload mod 10 ^ prec else payload.

(** [Decimal._fix]: the result of an operation is brought into the context.
    A zero gets its exponent clamped to [[Etiny, Emax]]; a number whose
    adjusted exponent exceeds [Emax] signals [Overflow]; a coefficient of
    more than [prec] digits, or one that reaches below [Etiny], is rounded
    half to even (a subnormal result may round to zero).  [Rounded],
    [Inexact], [Subnormal], [Underflow] and [Clamped] are not trapped. *)
Definition fix_ (d : Decimal) : Signal + Decimal :=
  match d with
  | mkDecimal sign coeff exp =>
      if coeff =? 0 then inr (mkDecimal sign 0 (Z.min (Z.max exp Etiny) Emax))
      else
        let exp_min := num_digits coeff + exp - prec in
        if Etop <? exp_min then inl Overflow
        else
          let exp_min := Z.max exp_min Etiny in
          if exp <? exp_min then
            let digits := num_digits coeff + exp - exp_min in
            let '(coeff, digits) :=
              if digits <? 0 then (1, 0) else (coeff, digits) in
            let rounded := round_half_even coeff (num_digits coeff - digits) in
            let '(rounded, exp_min) :=
              if prec <? num_digits rounded
              then (rounded / 10, exp_min + 1)
              else (rounded, exp_min) in
            if Etop <? exp_min then inl Overflow
            else inr (mkDecimal sign rounded exp_min)
          else inr d
  | Infinity _ => inr d
  | NaN sign payload => inr (NaN sign (fix_nan payload))
  | sNaN sign payload => inr (sNaN sign (fix_nan payload))
  end.

(** The coefficient with its sign. *)
Definition signed_int (sign : bool) (coeff : Z) : Z :=
  if sign then - coeff else coeff.

(** [Decimal(n)] for an [int]. *)
Definition Decimal_of_int (n : Z) : Decimal :=
  mkDecimal (n <? 0) (Z.abs n) 0.

(** [Decimal._check_nans]: a signaling NaN among the operands raises
    [InvalidOperation]; otherwise the first quiet NaN is the result. *)
Definition check_nans (a b : Decimal) : option (Signal + Decimal) :=
  match a, b with
  | sNaN _ _, _ => Some (inl InvalidOperation)
  | _, sNaN _ _ => Some (inl InvalidOperation)
  | NaN sign payload, _ => Some (inr (NaN sign (fix_nan payload)))
  | _, NaN sign payload => Some (inr (NaN sign (fix_nan payload)))
  | _, _ => None
  end.

(** The [_sign] of a decimal. *)
Definition d_sign (d : Decimal) : bool :=
  match d with
  | mkDecimal sign _ _ | Infinity sign | NaN sign _ | sNaN sign _ => sign
  end.

(** [d.is_finite()]. *)
Definition is_finite (d : Decimal) : bool :=
  match d with
  | mkDecimal _ _ _ => true
  | _ => false
  end.

(** [not d]: only a finite number with coefficient zero is falsy. *)
Definition is_zero (d : Decimal) : bool :=
  match d with
  | mkDecimal _ coeff _ => coeff =? 0
  | _ => false
  end.

(** [a * b]. *)
Definition dec_mul (a b : Decimal) : Signal + Decimal :=
  match check_nans a b with
  | Some result => result
  | None =>
      match a, b with
      | mkDecimal sa ca ea, mkDecimal sb cb eb =>
          fix_ (mkDecimal (xorb sa sb) (ca * cb) (ea + eb))
      | _, _ =>
          (* an infinity times zero is invalid, times anything else an
             infinity *)
          if is_zero a || is_zero b then inl InvalidOperation
          else inr (Infinity (xorb (d_sign a) (d_sign b)))
      end
  end.

(** [_normalize], for two non-zero operands given as coefficient and
    exponent: the operand with the larger exponent is [tmp].  An [other]
    that lies entirely below the digit [exp] is replaced by [10^exp], which
    rounds the same way; then [tmp] is padded to the exponent of [other].
    The result is the two coefficients, in the order of the operands, and
    their common exponent. *)
Definition normalize (ca ea cb eb : Z) : Z * Z * Z :=
  let '(tmp, tmp_exp, other, other_exp) :=
    if ea <? eb then (cb, eb, ca, ea) else (ca, ea, cb, eb) in
  let exp := tmp_exp + Z.min (-1) (num_digits tmp - prec - 2) in
  let '(other, other_exp) :=
    if num_digits other + other_exp - 1 <? exp then (1, exp)
    else (other, other_exp) in
  let tmp := tmp * 10 ^ (tmp_exp - other_exp) in
  if ea <? eb then (other, tmp, other_exp) else (tmp, other, other_exp).

(** [a + b]. *)
Definition dec_add (a b : Decimal) : Signal + Decimal :=
  match check_nans a b with
  | Some result => result
  | None =>
      match a, b with
      | mkDecimal sa ca ea, mkDecimal sb cb eb =>
          let exp := Z.min ea eb in
          if (ca =? 0) && (cb =? 0) then fix_ (mkDecimal (sa && sb) 0 exp)
          else if ca =? 0 then
            let exp := Z.max exp (eb - prec - 1) in
            fix_ (mkDecimal sb (cb * 10 ^ (eb - exp)) exp)
          else if cb =? 0 then
            let exp := Z.max exp (ea - prec - 1) in
            fix_ (mkDecimal sa (ca * 10 ^ (ea - exp)) exp)
          else
            let '(na, nb, nexp) := normalize ca ea cb eb in
            let sum := signed_int sa na + signed_int sb nb in
            if sum =? 0 then fix_ (mkDecimal false 0 exp)
            else fix_ (mkDecimal (sum <? 0) (Z.abs sum) nexp)
      | Infinity sa, Infinity sb =>
          if xorb sa sb then inl InvalidOperation else inr a
      | Infinity _, _ => inr a
      | _, _ => inr b (* a finite number plus an infinity *)
      end
  end.

(** The loop [while exp < ideal_exp and coeff % 10 == 0] of the division,
    run for at most [ideal_exp - exp] rounds. *)
Fixpoint strip_zeros (rounds : nat) (coeff exp : Z) : Z * Z :=
  match rounds with
  | O => (coeff, exp)
  | S rounds' =>
      if coeff mod 10 =? 0 then strip_zeros rounds' (coeff / 10) (exp + 1)
      else (coeff, exp)
  end.

(** [a / b]. *)
Definition dec_truediv (a b : Decimal) : Signal + Decimal :=
  match check_nans a b with
  | Some result => result
  | None =>
      match a, b with
      | mkDecimal sa ca ea, mkDecimal sb cb eb =>
          let sign := xorb sa sb in
          if cb =? 0 then
            if ca =? 0 then inl InvalidOperation else inl DivisionByZero
          else if ca =? 0 then fix_ (mkDecimal sign 0 (ea - eb))
          else
            let shift := num_digits cb - num_digits ca + prec + 1 in
            let exp := ea - eb - shift in
            let '(coeff, remainder) :=
              if 0 <=? shift
              then Z.div_eucl (ca * 10 ^ shift) cb
              else Z.div_eucl ca (cb * 10 ^ (- shift)) in
            let '(coeff, exp) :=
              if remainder =? 0
              then strip_zeros (Z.to_nat (ea - eb - exp)) coeff exp
              else (if coeff mod 5 =? 0 then coeff + 1 else coeff, exp) in
            fix_ (mkDecimal sign coeff exp)
      | Infinity _, Infinity _ => inl InvalidOperation
      | Infinity sa, _ => inr (Infinity (xorb sa (d_sign b)))
      | _, _ =>
          (* a finite number divided by an infinity *)
          inr (mkDecimal (xorb (d_sign a) (d_sign b)) 0 Etiny)
      end
  end.


(** ** Configuration (the environment variables read at import time) *)

Record Config : Type := mkConfig {
  ATFOOD_API_TOKEN : option string;
  OPEN_INPUT_PRICE_PER_1K : Decimal;
  OPEN_OUTPUT_PRICE_PER_1K : Decimal;
  RATE_LIMIT_REQUESTS : Z;
  RATE_LIMIT_WINDOW_SECONDS : Z
}.

(** ** The request *)

(** [prefs] is a [Dict[str, Any]]; each entry is kept as the [repr] of its
    key and of its value, which is all the handler ever prints. *)
Record AtfoodRequest : Type := mkRequest {
  action : string;
  user_text : option string;
  recipe_id : option string;
  critic_topic : option string;
  session_id : option string;
  prefs : option (list (string * string))
}.

(** ** Recipe context and prompt templates *)

Definition RECIPE_CONTEXT : gmap string (gmap string string) :=
  list_to_map
    [ ("chili_crisp_noodles",
       list_to_map
         [ ("title", "15-minute chili crisp noodles");
           ("blurb", "Heat, crunch, and a sauce that clings. Easy to adapt: vegan, low-sodium, or extra protein.") ]);
      ("charred_lemon_chicken",
       list_to_map
         [ ("title", "Charred lemon chicken + herbs");
           ("blurb", "Weeknight-perfect, restaurant aroma. Works with thighs, breasts, tofu, or cauliflower.") ]);
      ("silky_tomato_soup",
       list_to_map
         [ ("title", "Silky tomato soup (no sadness)");
           ("blurb", "Roast the tomatoes. Finish with a bright acid. The difference is night and day.") ]) ].

(** [d.get(key, default)] on a dictionary of strings, the default being any
    Python value that is a string or [None]. *)
Definition dict_get (d : gmap string string) (key : string)
    (default : option string) : option string :=
  match d !! key with
  | Some v => Some v
  | None => default
  end.

(** [RECIPE_CONTEXT.get(req.recipe_id or '', {})]. *)
Definition recipe_entry (req : AtfoodRequest) : gmap string string :=
  default ∅ (RECIPE_CONTEXT !! py_or (recipe_id req) "").

Definition open_ai_kitchen (req : AtfoodRequest) : string :=
  "ACTION=open_ai_kitchen" +:+ LF +:+
  "Goal: Onboard user into AI Kitchen and collect dish + constraints." +:+ LF +:+
  "User text: " +:+ py_or (user_text req) "" +:+ LF.

Definition world_picks (req : AtfoodRequest) : string :=
  "ACTION=world_picks" +:+ LF +:+
  "Goal: Give 'world picks' + a flavor compass. Ask what they want to explore." +:+ LF +:+
  "User text: " +:+ py_or (user_text req) "" +:+ LF.

Definition food_era (req : AtfoodRequest) : string :=
  "ACTION=food_era" +:+ LF +:+
  "Goal: Build a two-week 'food era' plan with sauces/techniques/dishes." +:+ LF +:+
  "User text: " +:+ py_or (user_text req) "" +:+ LF.

Definition adjust_recipe (req : AtfoodRequest) : string :=
  "ACTION=adjust_recipe" +:+ LF +:+
  "Goal: Adapt this recipe without losing soul." +:+ LF +:+
  "Recipe: " +:+
    py_format (dict_get (recipe_entry req) "title" (recipe_id req)) +:+ LF +:+
  "Recipe blurb: " +:+
    py_format (dict_get (recipe_entry req) "blurb" (Some "")) +:+ LF +:+
  "User constraints/request: " +:+ py_or (user_text req) "" +:+ LF +:+
  "If user gave no constraints, propose 3 good adaptation directions." +:+ LF.

Definition critic_notes (req : AtfoodRequest) : string :=
  "ACTION=critic_notes" +:+ LF +:+
  "Goal: Punchy critic note expansion." +:+ LF +:+
  "Topic: " +:+ py_or (critic_topic req) "" +:+ LF +:+
  "User text: " +:+ py_or (user_text req) "" +:+ LF.

Definition ACTION_PROMPTS : gmap string (AtfoodRequest → string) :=
  list_to_map
    [ ("open_ai_kitchen", open_ai_kitchen);
      ("world_picks", world_picks);
      ("food_era", food_era);
      ("adjust_recipe", adjust_recipe);
      ("critic_notes", critic_notes) ].


(** ** Rate limiter *)

(** Clock readings of [time.monotonic()] and the window length are counted
    in one fixed unit of time. *)

(** The loop [while window and window[0] < cutoff: window.popleft()]. *)
Fixpoint popleft_while (cutoff : Z) (window : list Z) : list Z :=
  match window with
  | [] => []
  | t :: rest => if t <? cutoff then popleft_while cutoff rest else window
  end.

(** What a handler can raise: an [HTTPException] with its status code and
    detail, or any other exception. *)
Inductive Raised : Type :=
  | HTTPException (status_code : Z) (detail : string)
  | Exception.

(** [enforce_rate_limit], on the [_rate_buckets] dictionary and with the
    clock reading [now].  [_rate_buckets[client_ip]] on the [defaultdict]
    creates an empty deque for a new key, and the deque is updated in place
    whether or not the request is admitted. *)
Definition enforce_rate_limit (cfg : Config) (now : Z) (client_ip : string)
    (_rate_buckets : gmap string (list Z))
    : gmap string (list Z) * (Raised + unit) :=
  let window := default [] (_rate_buckets !! client_ip) in
  let cutoff := now - RATE_LIMIT_WINDOW_SECONDS cfg in
  let window := popleft_while cutoff window in
  if RATE_LIMIT_REQUESTS cfg <=? Z.of_nat (length window)
  then (<[client_ip := window]> _rate_buckets,
        inl (HTTPException 429 "Rate limit exceeded"))
  else (<[client_ip := window ++ [now]]> _rate_buckets, inr tt).

(** ** The provider's response *)

(** Attributes read with [getattr(obj, name, None)] are [option]s: [None]
    is a missing attribute or the value [None].  The [text] of a content
    fragment is a string when present; the token counts of the usage object
    are read with two different defaults and keep the three cases apart. *)
Record Content : Type := mkContent {
  content_type : option string;
  content_text : option string
}.

Record OutputItem : Type := mkItem {
  item_type : option string;
  item_content : option (list Content)
}.

Record Usage : Type := mkUsage {
  input_tokens : attr Z;
  output_tokens : attr Z;
  prompt_tokens : attr Z;
  completion_tokens : attr Z
}.

Record Response : Type := mkResponse {
  output_text : option string;
  output : option (list OutputItem);
  usage : option Usage
}.

(** The inner loop of [extract_output_text], over the content of one item. *)
Definition collect_content (parts : list string) (content : Content)
    : list string :=
  if decide (content_type content = Some "output_text")
  then parts ++ [default "" (content_text content)]
  else parts.

(** The body of the outer loop. *)
Definition collect_item (parts : list string) (item : OutputItem)
    : list string :=
  if decide (item_type item = Some "message")
  then fold_left collect_content (default [] (item_content item)) parts
  else parts.

Definition extract_output_text (response : Response) : string :=
  if truthy_opt (output_text response)
  then default "" (output_text response)
  else
    let output := default [] (output response) in
    let parts := fold_left collect_item output [] in
    String.concat "" parts.

(** The output policy in the words of the specification: the fragments
    tagged [output_text] of the items tagged [message], in list order. *)
Definition message_fragments (items : list OutputItem) : list string :=
  flat_map
    (λ item,
       map (λ c, default "" (content_text c))
         (filter (λ c, content_type c = Some "output_text")
            (default [] (item_content item))))
    (filter (λ item, item_type item = Some "message") items).

Definition normalized_output (response : Response) : string :=
  match output_text response with
  | Some (String c s) => String c s
  | _ => String.concat "" (message_fragments (default [] (output response)))
  end.

(** [getattr(usage, name, default)] where [usage] itself may be [None]. *)
Definition usage_getattr (usage : option Usage) (field : Usage → attr Z)
    (default : option Z) : option Z :=
  match usage with
  | Some u => getattr (field u) default
  | None => default
  end.

(** [int(x or 0)] for a token count. *)
Definition int_or_0 (x : option Z) : Z :=
  match x with
  | Some n => n
  | None => 0
  end.

(** Lines 347-355 of [atfood_endpoint]: the two token counts. *)
Definition extract_usage (response : Response) : Z * Z :=
  let usage := usage response in
  let prompt_tokens' := usage_getattr usage input_tokens None in
  let prompt_tokens' :=
    match prompt_tokens' with
    | None => usage_getattr usage prompt_tokens (Some 0)
    | Some _ => prompt_tokens'
    end in
  let response_tokens' := usage_getattr usage output_tokens None in
  let response_tokens' :=
    match response_tokens' with
    | None => usage_getattr usage completion_tokens (Some 0)
    | Some _ => response_tokens'
    end in
  (int_or_0 prompt_tokens', int_or_0 response_tokens').

(** The token count read from a usage object: the first field when it has
    a value, else the fallback field when it has one, else zero. *)
Definition preferred_count (first fallback : attr Z) : Z :=
  match first with
  | Has n => n
  | _ => match fallback with
         | Has m => m
         | _ => 0
         end
  end.

(** Lines 356-359: the cost of one exchange.  The two products are
    evaluated first, left to right, then the sum, then the quotient; the
    first signal that is raised ends the evaluation. *)
Definition total_cost_of (cfg : Config) (prompt_tokens response_tokens : Z)
    : Signal + Decimal :=
  match dec_mul (Decimal_of_int prompt_tokens) (OPEN_INPUT_PRICE_PER_1K cfg)
  with
  | inl signal => inl signal
  | inr input_cost =>
      match dec_mul (Decimal_of_int response_tokens)
              (OPEN_OUTPUT_PRICE_PER_1K cfg)
      with
      | inl signal => inl signal
      | inr output_cost =>
          match dec_add input_cost output_cost with
          | inl signal => inl signal
          | inr total => dec_truediv total (mkDecimal false 1000 0)
          end
      end
  end.

(** ** Handler state and the external world *)

(** The persisted row; [id] and [created_at] are assigned by the database.
    [total_cost] is handed over as [str(total_cost)], kept here as the
    decimal it prints. *)
Record ConversationRecord : Type := mkRecord {
  rec_user_id : string;
  rec_action : string;
  rec_prompt : string;
  rec_response_text : string;
  rec_prompt_tokens : Z;
  rec_response_tokens : Z;
  rec_total_cost : Decimal
}.

Record AtfoodResponse : Type := mkAtfoodResponse {
  resp_text : string;
  resp_prompt_tokens : Z;
  resp_response_tokens : Z;
  resp_total_cost : Decimal
}.

(** The mutable state a request can touch: the module-level [_rate_buckets]
    and the rows of the table [atfood_conversations]. *)
Record State : Type := mkState {
  rate_buckets : gmap string (list Z);
  atfood_conversations : list ConversationRecord
}.

(** What the outside world does during one request: the clock reading, the
    provider's answer to a prompt ([None] when [CLIENT.responses.create]
    raises), and whether the INSERT goes through. *)
Record World : Type := mkWorld {
  monotonic : Z;
  responses_create : string → option Response;
  insert_succeeds : bool
}.

(** A handler step: it reads and updates the state, and either raises or
    returns a value. *)
Definition Handler (A : Type) : Type := State → State * (Raised + A).

Global Instance Handler_ret : MRet Handler :=
  λ A (a : A) st, (st, inr a).

Global Instance Handler_bind : MBind Handler :=
  λ A B (f : A → Handler B) (m : Handler A) st,
    match m st with
    | (st', inr a) => f a st'
    | (st', inl e) => (st', inl e)
    end.

Definition raise {A : Type} (e : Raised) : Handler A :=
  λ st, (st, inl e).

(** [try: body except Exception: handler]; an [HTTPException] is an
    [Exception] too. *)
Definition try_except {A : Type} (body handler : Handler A) : Handler A :=
  λ st,
    match body st with
    | (st', inr a) => (st', inr a)
    | (st', inl _) => handler st'
    end.

(** A call of the rate limiter from a handler. *)
Definition on_rate_buckets
    (f : gmap string (list Z) → gmap string (list Z) * (Raised + unit))
    : Handler unit :=
  λ st,
    let '(buckets, r) := f (rate_buckets st) in
    (mkState buckets (atfood_conversations st), r).

(** [_store_conversation]: one INSERT on a fresh autocommit connection; it
    adds the row, or raises and adds nothing. *)
Definition _store_conversation (w : World) (row : ConversationRecord)
    : Handler unit :=
  λ st,
    if insert_succeeds w
    then (mkState (rate_buckets st) (atfood_conversations st ++ [row]), inr tt)
    else (st, inl Exception).

(** [repr] of the [prefs] dictionary from the [repr]s of its entries. *)
Definition dict_repr (d : list (string * string)) : string :=
  "{" +:+ String.concat ", " (map (λ kv, kv.1 +:+ ": " +:+ kv.2) d) +:+ "}".

(** Lines 325-327: the shared-secret check. *)
Definition check_token (cfg : Config) (x_atfood_token : option string)
    : Handler unit :=
  if truthy_opt (ATFOOD_API_TOKEN cfg) && truthy_opt x_atfood_token
  then
    if decide (x_atfood_token ≠ ATFOOD_API_TOKEN cfg)
    then raise (HTTPException 401 "Invalid token")
    else mret tt
  else mret tt.

(** Lines 336-340: the rendered prompt with the [Prefs] and [Session]
    lines. *)
Definition build_prompt (prompt_builder : AtfoodRequest → string)
    (payload : AtfoodRequest) : string :=
  let prompt := prompt_builder payload in
  let prompt :=
    match prefs payload with
    | Some (kv :: d) =>
        prompt +:+ "Prefs: " +:+ dict_repr (kv :: d) +:+ LF
    | _ => prompt
    end in
  if truthy_opt (session_id payload)
  then prompt +:+ "Session: " +:+ default "" (session_id payload) +:+ LF
  else prompt.

(** Line 363: the label under which the exchange is stored. *)
Definition user_id_of (x_atfood_user : option string) (client_ip : string)
    : string :=
  let named := strip (py_or x_atfood_user "") in
  if truthy named then named
  else if truthy client_ip then client_ip
  else "demo-user".

(** The call [AtfoodResponse(text=..., ...)] of line 376.  The response is
    a pydantic model, whose fields are checked when it is built: a
    [Decimal] field of pydantic 2 takes finite values only, so an infinite
    or NaN cost raises a [ValidationError]. *)
Definition new_AtfoodResponse (text : string)
    (prompt_tokens response_tokens : Z) (total_cost : Decimal)
    : Handler AtfoodResponse :=
  if is_finite total_cost
  then mret (mkAtfoodResponse text prompt_tokens response_tokens total_cost)
  else raise Exception.

(** [atfood_endpoint].  [client] is [request.client.host], or [None] when
    the request has no client.  A signal raised by the cost expression, and
    the [ValidationError] of the response, are exceptions that nothing in
    the handler catches. *)
Definition atfood_endpoint (cfg : Config) (w : World)
    (payload : AtfoodRequest) (client : option string)
    (x_atfood_token x_atfood_user : option string)
    : Handler AtfoodResponse :=
  check_token cfg x_atfood_token ;;
  let client_ip := default "unknown" client in
  on_rate_buckets (enforce_rate_limit cfg (monotonic w) client_ip) ;;
  match ACTION_PROMPTS !! action payload with
  | None => raise (HTTPException 400 "Unknown action")
  | Some prompt_builder =>
      let prompt := build_prompt prompt_builder payload in
      match responses_create w prompt with
      | None => raise Exception
      | Some response =>
          let '(prompt_tokens, response_tokens) := extract_usage response in
          match total_cost_of cfg prompt_tokens response_tokens with
          | inl _ => raise Exception
          | inr total_cost =>
              let text := strip (extract_output_text response) in
              if negb (truthy text)
              then raise (HTTPException 502 "Empty response from model")
              else
                let user_id := user_id_of x_atfood_user client_ip in
                try_except
                  (_store_conversation w
                     (mkRecord user_id (action payload) prompt text
                        prompt_tokens response_tokens total_cost))
                  (raise (HTTPException 500 "Failed to save conversation")) ;;
                new_AtfoodResponse text prompt_tokens response_tokens
                  total_cost
          end
      end
  end.

(** ** The stages of a request

    [stage_outcome] lists the ways a request can end, stage by stage: what
    each earlier stage did, the state that is left, and what the caller
    gets. *)
Inductive stage_outcome (cfg : Config) (w : World) (payload : AtfoodRequest)
    (client : option string) (x_atfood_token x_atfood_user : option string)
    (st : State) : State * (Raised + AtfoodResponse) → Prop :=
  | Ends_unauthorized :
      truthy_opt (ATFOOD_API_TOKEN cfg) = true →
      truthy_opt x_atfood_token = true →
      x_atfood_token ≠ ATFOOD_API_TOKEN cfg →
      stage_outcome cfg w payload client x_atfood_token x_atfood_user st
        (st, inl (HTTPException 401 "Invalid token"))
  | Ends_rate_limited buckets :
      check_token cfg x_atfood_token st = (st, inr tt) →
      enforce_rate_limit cfg (monotonic w) (default "unknown" client)
        (rate_buckets st)
        = (buckets, inl (HTTPException 429 "Rate limit exceeded")) →
      stage_outcome cfg w payload client x_atfood_token x_atfood_user st
        (mkState buckets (atfood_conversations st),
         inl (HTTPException 429 "Rate limit exceeded"))
  | Ends_unknown_action buckets :
      check_token cfg x_atfood_token st = (st, inr tt) →
      enforce_rate_limit cfg (monotonic w) (default "unknown" client)
        (rate_buckets st) = (buckets, inr tt) →
      ACTION_PROMPTS !! action payload = None →
      stage_outcome cfg w payload client x_atfood_token x_atfood_user st
        (mkState buckets (atfood_conversations st),
         inl (HTTPException 400 "Unknown action"))
  | Ends_provider_raised buckets prompt_builder :
      check_token cfg x_atfood_token st = (st, inr tt) →
      enforce_rate_limit cfg (monotonic w) (default "unknown" client)
        (rate_buckets st) = (buckets, inr tt) →
      ACTION_PROMPTS !! action payload = Some prompt_builder →
      responses_create w (build_prompt prompt_builder payload) = None →
      stage_outcome cfg w payload client x_atfood_token x_atfood_user st
        (mkState buckets (atfood_conversations st), inl Exception)
  | Ends_cost_raised buckets prompt_builder response signal :
      check_token cfg x_atfood_token st = (st, inr tt) →
      enforce_rate_limit cfg (monotonic w) (default "unknown" client)
        (rate_buckets st) = (buckets, inr tt) →
      ACTION_PROMPTS !! action payload = Some prompt_builder →
      responses_create w (build_prompt prompt_builder payload)
        = Some response →
      total_cost_of cfg (extract_usage response).1 (extract_usage response).2
        = inl signal →
      stage_outcome cfg w payload client x_atfood_token x_atfood_user st
        (mkState buckets (atfood_conversations st), inl Exception)
  | Ends_empty_output buckets prompt_builder response total_cost :
      check_token cfg x_atfood_token st = (st, inr tt) →
      enforce_rate_limit cfg (monotonic w) (default "unknown" client)
        (rate_buckets st) = (buckets, inr tt) →
      ACTION_PROMPTS !! action payload = Some prompt_builder →
      responses_create w (build_prompt prompt_builder payload)
        = Some response →
      total_cost_of cfg (extract_usage response).1 (extract_usage response).2
        = inr total_cost →
      strip (extract_output_text response) = "" →
      stage_outcome cfg w payload client x_atfood_token x_atfood_user st
        (mkState buckets (atfood_conversations st),
         inl (HTTPException 502 "Empty response from model"))
  | Ends_store_failed buckets prompt_builder response total_cost :
      check_token cfg x_atfood_token st = (st, inr tt) →
      enforce_rate_limit cfg (monotonic w) (default "unknown" client)
        (rate_buckets st) = (buckets, inr tt) →
      ACTION_PROMPTS !! action payload = Some prompt_builder →
      responses_create w (build_prompt prompt_builder payload)
        = Some response →
      total_cost_of cfg (extract_usage response).1 (extract_usage response).2
        = inr total_cost →
      strip (extract_output_text response) ≠ "" →
      insert_succeeds w = false →
      stage_outcome cfg w payload client x_atfood_token x_atfood_user st
        (mkState buckets (atfood_conversations st),
         inl (HTTPException 500 "Failed to save conversation"))
  | Ends_response_invalid buckets prompt_builder response total_cost :
      check_token cfg x_atfood_token st = (st, inr tt) →
      enforce_rate_limit cfg (monotonic w) (default "unknown" client)
        (rate_buckets st) = (buckets, inr tt) →
      ACTION_PROMPTS !! action payload = Some prompt_builder →
      responses_create w (build_prompt prompt_builder payload)
        = Some response →
      total_cost_of cfg (extract_usage response).1 (extract_usage response).2
        = inr total_cost →
      strip (extract_output_text response) ≠ "" →
      insert_succeeds w = true →
      is_finite total_cost = false →
      stage_outcome cfg w payload client x_atfood_token x_atfood_user st
        (mkState buckets
           (atfood_conversations st ++
              [mkRecord
                 (user_id_of x_atfood_user (default "unknown" client))
                 (action payload)
                 (build_prompt prompt_builder payload)
                 (strip (extract_output_text response))
                 (extract_usage response).1 (extract_usage response).2
                 total_cost]),
         inl Exception)
  | Ends_ok buckets prompt_builder response total_cost :
      check_token cfg x_atfood_token st = (st, inr tt) →
      enforce_rate_limit cfg (monotonic w) (default "unknown" client)
        (rate_buckets st) = (buckets, inr tt) →
      ACTION_PROMPTS !! action payload = Some prompt_builder →
      responses_create w (build_prompt prompt_builder payload)
        = Some response →
      total_cost_of cfg (extract_usage response).1 (extract_usage response).2
        = inr total_cost →
      strip (extract_output_text response) ≠ "" →
      insert_succeeds w = true →
      is_finite total_cost = true →
      stage_outcome cfg w payload client x_atfood_token x_atfood_user st
        (mkState buckets
           (atfood_conversations st ++
              [mkRecord
                 (user_id_of x_atfood_user (default "unknown" client))
                 (action payload)
                 (build_prompt prompt_builder payload)
                 (strip (extract_output_text response))
                 (extract_usage response).1 (extract_usage response).2
                 total_cost]),
         inr (mkAtfoodResponse (strip (extract_output_text response))
                (extract_usage response).1 (extract_usage response).2
                total_cost)).

(** ** Runs of the rate limiter *)

(** The deque of a client, empty when the dictionary has no such key. *)
Definition bucket_of (buckets : gmap string (list Z)) (client_ip : string)
    : list Z :=
  default [] (buckets !! client_ip).

(** One call [(now, client_ip)] of a run.  Next to the dictionary the run
    keeps the calls that were admitted so far, oldest first. *)
Definition rate_limit_step (cfg : Config)
    (s : gmap string (list Z) * list (Z * string)) (call : Z * string)
    : gmap string (list Z) * list (Z * string) :=
  let '(buckets, r) := enforce_rate_limit cfg call.1 call.2 s.1 in
  (buckets,
   match r with
   | inr _ => s.2 ++ [call]
   | inl _ => s.2
   end).

(** A sequence of calls, oldest first, from the empty dictionary of a
    fresh process. *)
Definition run_rate_limit (cfg : Config) (calls : list (Z * string))
    : gmap string (list Z) * list (Z * string) :=
  fold_left (rate_limit_step cfg) calls (∅, []).

(** The clock readings of the calls of one client in a list of calls: of
    all its calls when the list is the run, of its admitted calls when the
    list is the history kept by the run. *)
Definition times_of (client_ip : string) (calls : list (Z * string))
    : list Z :=
  map fst (filter (λ call, call.2 = client_ip) calls).

(** What holds between the calls of a run whose last clock reading was at
    most [clock]: for every client, the admitted readings are in
    chronological order, none is later than [clock], and the deque holds
    all of them but a prefix that had already left the window. *)
Definition limiter_inv (cfg : Config) (clock : Z)
    (s : gmap string (list Z) * list (Z * string)) : Prop :=
  ∀ client_ip,
    StronglySorted Z.le (times_of client_ip s.2)
    ∧ Forall (λ t, t ≤ clock) (times_of client_ip s.2)
    ∧ ∃ dropped,
        times_of client_ip s.2 = dropped ++ bucket_of s.1 client_ip
        ∧ Forall (λ t, t < clock - RATE_LIMIT_WINDOW_SECONDS cfg) dropped.

(** ** Start-up: environment checks, CORS origins, database URI *)

(** The environment variables that the import-time checks look at; a
    variable that is not set is [None]. *)
Record Environ : Type := mkEnviron {
  OPENAI_API_KEY : option string;
  OPEN_MODEL : option string;
  ATFOOD_MODEL : option string;
  DATABASE_URI : option string
}.

(** [x or y] on two [Optional[str]]: the first operand when it is truthy,
    else the second as it is. *)
Definition py_or_opt (x y : option string) : option string :=
  if truthy_opt x then x else y.

(** Lines 29-37: the three checks in their order, then
    [MODEL = ATFOOD_MODEL or OPEN_MODEL].  The result is the message of the
    [RuntimeError], or [MODEL]. *)
Definition import_checks (env : Environ) : string + option string :=
  if negb (truthy_opt (OPENAI_API_KEY env))
  then inl "OPENAI_API_KEY is required"
  else if negb (truthy_opt (OPEN_MODEL env))
          && negb (truthy_opt (ATFOOD_MODEL env))
  then inl "OPEN_MODEL or ATFOOD_MODEL is required"
  else if negb (truthy_opt (DATABASE_URI env))
  then inl "DATABASE_URI is required"
  else inr (py_or_opt (ATFOOD_MODEL env) (OPEN_MODEL env)).

(** [s.split(",")]: the pieces between the commas; the empty string has
    the one piece [""]. *)
Fixpoint split_comma (s : string) : list string :=
  match s with
  | EmptyString => [EmptyString]
  | String c rest =>
      if Ascii.eqb c ","%char then EmptyString :: split_comma rest
      else
        match split_comma rest with
        | piece :: pieces => String c piece :: pieces
        | [] => [String c EmptyString]
        end
  end.

(** Line 156: [[origin.strip() for origin in ATFOOD_CORS_ORIGINS.split(",")
    if origin.strip()]]. *)
Definition cors_origins (ATFOOD_CORS_ORIGINS : string) : list string :=
  map strip
    (filter (λ origin, truthy (strip origin) = true)
       (split_comma ATFOOD_CORS_ORIGINS)).

(** Whether a string holds a comma. *)
Fixpoint has_comma (s : string) : bool :=
  match s with
  | EmptyString => false
  | String c rest => Ascii.eqb c ","%char || has_comma rest
  end.

(** What [urlparse(uri)] hands to [_parse_database_uri]: the scheme, the
    path, and the parts of the network location.  [hostname], [username]
    and [password] are [None] when the URI has none; [port_text] is the text
    after the colon that follows the host, [None] when there is no colon or
    nothing after it. *)
Record ParseResult : Type := mkParseResult {
  scheme : string;
  hostname : option string;
  port_text : option string;
  username : option string;
  password : option string;
  path : string
}.

(** What reading a database URI can raise. *)
Inductive UriError : Type :=
  | RuntimeError (message : string)
  | ValueError.

(** The number a string of ASCII digits stands for, after the number [acc]
    of the digits read so far; [None] when a byte is not an ASCII digit. *)
Fixpoint int_of_digits (acc : Z) (s : string) : option Z :=
  match s with
  | EmptyString => Some acc
  | String c rest =>
      let n := Z.of_nat (nat_of_ascii c) in
      if (48 <=? n) && (n <=? 57) then int_of_digits (10 * acc + (n - 48)) rest
      else None
  end.

(** The property [parsed.port]: [None] without a port text; the number
    when the text is made of ASCII digits ([port.isdigit() and
    port.isascii()]) and is at most 65535; a [ValueError] otherwise. *)
Definition port (parsed : ParseResult) : UriError + option Z :=
  match port_text parsed with
  | None => inr None
  | Some EmptyString => inl ValueError
  | Some text =>
      match int_of_digits 0 text with
      | Some n => if n <=? 65535 then inr (Some n) else inl ValueError
      | None => inl ValueError
      end
  end.

Record DbConfig : Type := mkDbConfig {
  db_host : string;
  db_port : Z;
  db_user : string;
  db_password : string;
  db_database : string
}.

(** [s.lstrip("/")]. *)
Fixpoint lstrip_slash (s : string) : string :=
  match s with
  | EmptyString => EmptyString
  | String c rest => if Ascii.eqb c "/"%char then lstrip_slash rest else s
  end.

(** [_parse_database_uri], from the parsed URI on; the result is the
    exception that is raised or the connection settings.  The port is read
    when the dictionary is built, after the two checks; a port of 0 is
    falsy, like a missing one. *)
Definition _parse_database_uri (parsed : ParseResult) : UriError + DbConfig :=
  if negb (bool_decide (scheme parsed = "mysql")
           || bool_decide (scheme parsed = "mysql+pymysql"))
  then inl (RuntimeError "DATABASE_URI must be a MySQL connection string")
  else if negb (truthy_opt (hostname parsed))
          || negb (truthy_opt (username parsed))
          || negb (truthy (path parsed))
  then inl (RuntimeError "DATABASE_URI is missing required fields")
  else
    match port parsed with
    | inl e => inl e
    | inr number =>
        inr (mkDbConfig
               (default "" (hostname parsed))
               (match number with
                | Some n => if n =? 0 then 3306 else n
                | None => 3306
                end)
               (default "" (username parsed))
               (py_or (password parsed) "")
               (lstrip_slash (path parsed)))
    end.

(** ** The schema of the conversation table *)

(** The table [atfood_conversations] as the start-up code sees it: [None]
    when it does not exist, else its columns in order, each with its name
    and its definition.  Names are spelled as [INFORMATION_SCHEMA] reports
    them.  Python compares them as strings; the database has its own idea
    of when two column names are the same (MySQL compares them without
    regard to letter case), which the code meets when a statement fails. *)

(** The columns of the [CREATE TABLE] statement. *)
Definition CREATE_TABLE_COLUMNS : list (string * string) :=
  [ ("id", "BIGINT AUTO_INCREMENT PRIMARY KEY");
    ("user_id", "VARCHAR(128) NOT NULL");
    ("action", "VARCHAR(64) NOT NULL");
    ("prompt", "TEXT NOT NULL");
    ("response_text", "TEXT NOT NULL");
    ("prompt_tokens", "INT DEFAULT 0");
    ("response_tokens", "INT DEFAULT 0");
    ("total_cost", "DECIMAL(12,6) DEFAULT 0");
    ("created_at", "TIMESTAMP DEFAULT CURRENT_TIMESTAMP") ].

(** [required_columns], in the order of the dictionary. *)
Definition required_columns : list (string * string) :=
  [ ("prompt_tokens", "INT DEFAULT 0");
    ("response_tokens", "INT DEFAULT 0");
    ("total_cost", "DECIMAL(12,6) DEFAULT 0") ].

(** [CREATE TABLE IF NOT EXISTS]: an existing table is left as it is,
    whatever its columns. *)
Definition create_table_if_not_exists
    (schema : option (list (string * string)))
    : option (list (string * string)) :=
  match schema with
  | None => Some CREATE_TABLE_COLUMNS
  | Some columns => Some columns
  end.

(** A letter of [A-Z] in lower case, any other byte as it is. *)
Definition lower_ascii (c : ascii) : ascii :=
  let n := nat_of_ascii c in
  if (65 <=? n)%nat && (n <=? 90)%nat then ascii_of_nat (n + 32) else c.

Fixpoint lower (s : string) : string :=
  match s with
  | EmptyString => EmptyString
  | String c rest => String (lower_ascii c) (lower rest)
  end.

(** Column names that differ at most in the case of ASCII letters. *)
Definition same_name_ignoring_case (a b : string) : bool :=
  bool_decide (lower a = lower b).

Section schema_migration.

(** Whether the database takes two column names for the same. *)
Variable same_column_name : string → string → bool.

(** [ALTER TABLE atfood_conversations ADD COLUMN]: the new column goes
    last; the statement fails on a missing table and when the table has a
    column that the database takes for the new one. *)
Definition alter_table_add_column (column : string * string)
    (schema : option (list (string * string)))
    : option (list (string * string)) * (Raised + unit) :=
  match schema with
  | None => (None, inl Exception)
  | Some columns =>
      if existsb (λ name, same_column_name name column.1) (map fst columns)
      then (schema, inl Exception)
      else (Some (columns ++ [column]), inr tt)
  end.

(** [_ensure_conversation_table]; [connects] tells whether
    [_get_db_connection()] succeeds. *)
Definition _ensure_conversation_table (connects : bool)
    (schema : option (list (string * string)))
    : option (list (string * string)) * (Raised + unit) :=
  if connects then (create_table_if_not_exists schema, inr tt)
  else (schema, inl Exception).

(** The loop of [_ensure_conversation_columns] over the required columns
    that are left, with the set [existing] read before the loop. *)
Fixpoint add_missing_columns (existing : list string)
    (required : list (string * string))
    (schema : option (list (string * string)))
    : option (list (string * string)) * (Raised + unit) :=
  match required with
  | [] => (schema, inr tt)
  | column :: rest =>
      if decide (column.1 ∈ existing)
      then add_missing_columns existing rest schema
      else
        match alter_table_add_column column schema with
        | (schema', inr _) => add_missing_columns existing rest schema'
        | (schema', inl e) => (schema', inl e)
        end
  end.

(** [_ensure_conversation_columns]: the column names of the table are
    read (none when there is no table), then the loop runs. *)
Definition _ensure_conversation_columns (connects : bool)
    (schema : option (list (string * string)))
    : option (list (string * string)) * (Raised + unit) :=
  if connects
  then
    let existing := map fst (default [] schema) in
    add_missing_columns existing required_columns schema
  else (schema, inl Exception).

(** The start-up part of [lifespan]: the table, then its columns. *)
Definition lifespan (connects : bool)
    (schema : option (list (string * string)))
    : option (list (string * string)) * (Raised + unit) :=
  match _ensure_conversation_table connects schema with
  | (schema', inr _) => _ensure_conversation_columns connects schema'
  | (schema', inl e) => (schema', inl e)
  end.

End schema_migration.

(** ** Sample inputs *)

Definition sample_config : Config :=
  mkConfig (Some "s3cret") (mkDecimal false 200 (-2))
    (mkDecimal false 600 (-2)) 30 60.

Definition sample_request : AtfoodRequest :=
  mkRequest "open_ai_kitchen" (Some "ramen for two") None None None None.

Definition sample_response : Response :=
  mkResponse (Some "  Sear it hard. ") None
    (Some (mkUsage (Has 1000) (Has 500) Missing Missing)).

Definition blank_response : Response :=
  mkResponse (Some "   ") None None.


(** A world in which the provider answers [response] to every prompt. *)
Definition sample_world (response : Response) (insert_ok : bool) : World :=
  mkWorld 100 (λ _, Some response) insert_ok.

Definition fresh_state : State := mkState ∅ [].

(** Prices with 28 significant digits: 0.3333333333333333333333333333 per
    1000 prompt tokens, nothing for the response. *)
Definition long_price_config : Config :=
  mkConfig None (mkDecimal false 3333333333333333333333333333 (-28))
    (mkDecimal false 0 0) 30 60.

(** * Properties *)

(** ** Prompt templates *)

Lemma ACTION_PROMPTS_adjust_recipe :
  ACTION_PROMPTS !! "adjust_recipe" = Some adjust_recipe.
Proof. reflexivity. Qed.

(** The keys of [ACTION_PROMPTS] are the five registered actions. *)
Lemma ACTION_PROMPTS_registered (a : string) (f : AtfoodRequest → string) :
  ACTION_PROMPTS !! a = Some f →
  (a = "open_ai_kitchen" ∧ f = open_ai_kitchen)
  ∨ (a = "world_picks" ∧ f = world_picks)
  ∨ (a = "food_era" ∧ f = food_era)
  ∨ (a = "adjust_recipe" ∧ f = adjust_recipe)
  ∨ (a = "critic_notes" ∧ f = critic_notes).
Proof.
  unfold ACTION_PROMPTS. cbn [list_to_map foldr fst snd uncurry].
  intros H.
  repeat (apply lookup_insert_Some in H as [[<- <-] | [_ H]]; [tauto |]).
  by rewrite lookup_empty in H.
Qed.

(** A missing [user_text] prints as the empty string in every template. *)
Lemma user_text_missing_renders_empty (a : string)
    (rid ct sid : option string) (pf : option (list (string * string))) :
  let req := mkRequest a None rid ct sid pf in
  open_ai_kitchen req =
    "ACTION=open_ai_kitchen" +:+ LF +:+
    "Goal: Onboard user into AI Kitchen and collect dish + constraints."
      +:+ LF +:+ "User text: " +:+ LF
  ∧ world_picks req =
    "ACTION=world_picks" +:+ LF +:+
    "Goal: Give 'world picks' + a flavor compass. Ask what they want to explore."
      +:+ LF +:+ "User text: " +:+ LF
  ∧ food_era req =
    "ACTION=food_era" +:+ LF +:+
    "Goal: Build a two-week 'food era' plan with sauces/techniques/dishes."
      +:+ LF +:+ "User text: " +:+ LF
  ∧ critic_notes req =
    "ACTION=critic_notes" +:+ LF +:+
    "Goal: Punchy critic note expansion." +:+ LF +:+
    "Topic: " +:+ py_or ct "" +:+ LF +:+ "User text: " +:+ LF.
Proof. repeat split; reflexivity. Qed.

(** A missing [critic_topic] prints as the empty string. *)
Lemma critic_topic_missing_renders_empty (a : string)
    (ut rid sid : option string) (pf : option (list (string * string))) :
  critic_notes (mkRequest a ut rid None sid pf) =
    "ACTION=critic_notes" +:+ LF +:+
    "Goal: Punchy critic note expansion." +:+ LF +:+
    "Topic: " +:+ LF +:+ "User text: " +:+ py_or ut "" +:+ LF.
Proof. reflexivity. Qed.

(** C6, at the request that breaks it: with [recipe_id] missing, the
    [adjust_recipe] template looks the recipe up under the key [''] but
    prints the raw [recipe_id], so the line reads [Recipe: None] instead of
    carrying an empty value. *)
Theorem adjust_recipe_missing_recipe_id_prints_None (a : string)
    (ut ct sid : option string) (pf : option (list (string * string))) :
  adjust_recipe (mkRequest a ut None ct sid pf) =
    "ACTION=adjust_recipe" +:+ LF +:+
    "Goal: Adapt this recipe without losing soul." +:+ LF +:+
    "Recipe: None" +:+ LF +:+
    "Recipe blurb: " +:+ LF +:+
    "User constraints/request: " +:+ py_or ut "" +:+ LF +:+
    "If user gave no constraints, propose 3 good adaptation directions."
      +:+ LF.
Proof. reflexivity. Qed.

Lemma recipe_entry_unknown (req : AtfoodRequest) (rid : string) :
  recipe_id req = Some rid →
  RECIPE_CONTEXT !! rid = None →
  recipe_entry req = ∅.
Proof.
  intros Hrid Hnone. unfold recipe_entry. rewrite Hrid.
  destruct rid as [|c rid]; cbn [py_or truthy]; by rewrite Hnone.
Qed.

(** C7: for an [adjust_recipe] request whose [recipe_id] is a string that
    [RECIPE_CONTEXT] does not know, a template is found and the prompt it
    renders has the raw [recipe_id] as the recipe title and an empty
    blurb. *)
Theorem adjust_recipe_unknown_recipe_id (payload : AtfoodRequest)
    (rid : string) :
  action payload = "adjust_recipe" →
  recipe_id payload = Some rid →
  RECIPE_CONTEXT !! rid = None →
  ∃ prompt_builder,
    ACTION_PROMPTS !! action payload = Some prompt_builder
    ∧ prompt_builder payload =
        "ACTION=adjust_recipe" +:+ LF +:+
        "Goal: Adapt this recipe without losing soul." +:+ LF +:+
        "Recipe: " +:+ rid +:+ LF +:+
        "Recipe blurb: " +:+ "" +:+ LF +:+
        "User constraints/request: " +:+ py_or (user_text payload) "" +:+ LF +:+
        "If user gave no constraints, propose 3 good adaptation directions."
          +:+ LF.
Proof.
  intros Hact Hrid Hnone. exists adjust_recipe. split.
  - rewrite Hact. apply ACTION_PROMPTS_adjust_recipe.
  - unfold adjust_recipe.
    rewrite (recipe_entry_unknown payload rid Hrid Hnone), Hrid.
    unfold dict_get. rewrite !lookup_empty. reflexivity.
Qed.

Lemma adjust_recipe_unknown_recipe_id_witness :
  ∃ prompt_builder,
    ACTION_PROMPTS !! "adjust_recipe" = Some prompt_builder
    ∧ prompt_builder
        (mkRequest "adjust_recipe" (Some "less salt") (Some "pad_thai") None
           None None) =
        "ACTION=adjust_recipe" +:+ LF +:+
        "Goal: Adapt this recipe without losing soul." +:+ LF +:+
        "Recipe: " +:+ "pad_thai" +:+ LF +:+
        "Recipe blurb: " +:+ "" +:+ LF +:+
        "User constraints/request: " +:+ "less salt" +:+ LF +:+
        "If user gave no constraints, propose 3 good adaptation directions."
          +:+ LF.
Proof.
  apply (adjust_recipe_unknown_recipe_id
           (mkRequest "adjust_recipe" (Some "less salt") (Some "pad_thai")
              None None None) "pad_thai"); reflexivity.
Defined.

(** ** Output normalisation *)

Lemma fold_collect_content (contents : list Content) (parts : list string) :
  fold_left collect_content contents parts =
    parts ++ map (λ c, default "" (content_text c))
               (filter (λ c, content_type c = Some "output_text") contents).
Proof.
  revert parts. induction contents as [|c contents IH]; intros parts.
  - cbn. by rewrite app_nil_r.
  - cbn [fold_left]. rewrite IH, filter_cons. unfold collect_content.
    case_decide; [| done]. cbn [map]. by rewrite <- app_assoc.
Qed.

Lemma fold_collect_item (items : list OutputItem) (parts : list string) :
  fold_left collect_item items parts = parts ++ message_fragments items.
Proof.
  revert parts. induction items as [|item items IH]; intros parts.
  - cbn. by rewrite app_nil_r.
  - cbn [fold_left]. rewrite IH. unfold message_fragments.
    rewrite filter_cons. unfold collect_item.
    case_decide; [| done].
    cbn [flat_map]. by rewrite fold_collect_content, <- app_assoc.
Qed.

(** C3: [extract_output_text] returns the top-level text when it is present
    and non-empty, and otherwise the concatenation, in list order, of the
    [output_text] fragments of the [message] items; two message items with
    one fragment each give the two fragments joined in list order. *)
Theorem extract_output_text_normalizes :
  (∀ response, extract_output_text response = normalized_output response)
  ∧ (∀ first second : string,
       extract_output_text
         (mkResponse None
            (Some [ mkItem (Some "message")
                      (Some [mkContent (Some "output_text") (Some first)]);
                    mkItem (Some "message")
                      (Some [mkContent (Some "output_text") (Some second)]) ])
            None)
       = first +:+ second).
Proof.
  split.
  - intros [[[|c s]|] out us]; unfold extract_output_text, normalized_output;
      cbn [output_text output truthy_opt truthy default];
      try reflexivity; by rewrite fold_collect_item.
  - intros first second. reflexivity.
Qed.

(** Items that are not messages and fragments that are not output text add
    nothing. *)
Lemma message_fragments_skips (items : list OutputItem) :
  Forall (λ item, item_type item ≠ Some "message") items →
  message_fragments items = [].
Proof.
  induction 1 as [|item items Hne _ IH]; [done |].
  unfold message_fragments in *. rewrite filter_cons.
  by case_decide.
Qed.

(** ** Usage extraction *)

(** C4: the prompt-token count comes from [input_tokens] when that field is
    present and not [None], otherwise from [prompt_tokens]; the
    response-token count from [output_tokens], otherwise from
    [completion_tokens]; a missing usage object gives [(0, 0)]. *)
Theorem extract_usage_prefers_first_pair (response : Response) :
  extract_usage response =
    match usage response with
    | Some u =>
        (preferred_count (input_tokens u) (prompt_tokens u),
         preferred_count (output_tokens u) (completion_tokens u))
    | None => (0, 0)
    end.
Proof.
  unfold extract_usage. destruct (usage response) as [[i o p c]|]; [| done].
  cbn [usage_getattr input_tokens output_tokens prompt_tokens
         completion_tokens].
  destruct i, o, p, c; reflexivity.
Qed.

(** A response that only has [prompt_tokens] and [completion_tokens]. *)
Lemma extract_usage_fallback_pair (ot : option string)
    (out : option (list OutputItem)) (p c : Z) :
  extract_usage (mkResponse ot out (Some (mkUsage Missing Missing (Has p) (Has c))))
  = (p, c).
Proof. reflexivity. Qed.

(** ** Rate limiter *)

Lemma filter_Forall_id {A} (P : A → Prop) `{!∀ x, Decision (P x)}
    (l : list A) :
  Forall P l → filter P l = l.
Proof.
  induction 1 as [|x l Hx _ IH]; [done |].
  by rewrite filter_cons_True, IH.
Qed.

Lemma filter_Forall_nil {A} (P : A → Prop) `{!∀ x, Decision (P x)}
    (l : list A) :
  Forall (λ x, ¬ P x) l → filter P l = [].
Proof.
  induction 1 as [|x l Hx _ IH]; [done |].
  by rewrite filter_cons_False.
Qed.

(** The loop pops a prefix of readings below the cutoff. *)
Lemma popleft_while_split (cutoff : Z) (window : list Z) :
  ∃ dropped,
    window = dropped ++ popleft_while cutoff window
    ∧ Forall (λ t, t < cutoff) dropped.
Proof.
  induction window as [|t rest (dropped & Hsplit & Hold)].
  - by exists [].
  - cbn [popleft_while]. destruct (Z.ltb_spec t cutoff).
    + exists (t :: dropped). split; [cbn; congruence | by constructor].
    + by exists [].
Qed.

(** On a chronologically ordered deque the loop leaves exactly the
    readings that are not older than the cutoff. *)
Lemma popleft_while_sorted (cutoff : Z) (window : list Z) :
  StronglySorted Z.le window →
  popleft_while cutoff window = filter (λ t, cutoff ≤ t) window.
Proof.
  induction 1 as [|t rest _ IH Hle]; [done |].
  cbn [popleft_while]. destruct (Z.ltb_spec t cutoff).
  - rewrite filter_cons_False by lia. done.
  - symmetry. apply filter_Forall_id. constructor; [done |].
    eapply Forall_impl; [exact Hle |]. cbn. lia.
Qed.

Section limiter_invariant.
Variable cfg : Config.

Lemma limiter_inv_init (clock : Z) : limiter_inv cfg clock (∅, []).
Proof.
  intros k. repeat split; [constructor | constructor |].
  exists []. split; [| constructor].
  unfold bucket_of. cbn. by rewrite lookup_empty.
Qed.

Lemma limiter_inv_later (clock clock' : Z) s :
  clock ≤ clock' → limiter_inv cfg clock s → limiter_inv cfg clock' s.
Proof.
  intros Hle Hinv k. destruct (Hinv k) as (Hs & Hc & dropped & Heq & Hold).
  split; [done |]. split.
  - eapply Forall_impl; [exact Hc |]. cbn. lia.
  - exists dropped. split; [done |].
    eapply Forall_impl; [exact Hold |]. cbn. lia.
Qed.

Lemma times_of_snoc (k : string) history (now : Z) (k' : string) :
  times_of k (history ++ [(now, k')]) =
    times_of k history ++ (if decide (k' = k) then [now] else []).
Proof.
  unfold times_of. rewrite filter_app, map_app. f_equal.
  rewrite filter_cons. cbn. by case_decide.
Qed.

Lemma limiter_inv_step (clock now : Z) (k : string) s :
  clock ≤ now →
  limiter_inv cfg clock s →
  limiter_inv cfg now (rate_limit_step cfg s (now, k)).
Proof.
  intros Hle Hinv k'. destruct s as [buckets history].
  destruct (Hinv k') as (Hs & Hc & dropped & Heq & Hold).
  cbn [fst snd] in *.
  unfold rate_limit_step, enforce_rate_limit. cbn [fst snd].
  fold (bucket_of buckets k).
  destruct (popleft_while_split
              (now - RATE_LIMIT_WINDOW_SECONDS cfg) (bucket_of buckets k))
    as (older & Hsplit & Holder).
  set (kept := popleft_while _ _) in *.
  assert (Hc' : Forall (λ t, t ≤ now) (times_of k' history)).
  { eapply Forall_impl; [exact Hc |]. cbn. lia. }
  assert (Hold' : Forall (λ t, t < now - RATE_LIMIT_WINDOW_SECONDS cfg)
                    dropped).
  { eapply Forall_impl; [exact Hold |]. cbn. lia. }
  destruct (decide (k = k')) as [<- | Hne].
  - destruct (Z.leb_spec (RATE_LIMIT_REQUESTS cfg) (Z.of_nat (length kept)));
      cbn [fst snd].
    + split; [done |]. split; [done |].
      exists (dropped ++ older). unfold bucket_of.
      rewrite lookup_insert_eq. cbn [default].
      split; [| by apply Forall_app].
      rewrite Heq, Hsplit at 1. by rewrite <- !app_assoc.
    + rewrite times_of_snoc, decide_True by done.
      split; [| split].
      * apply StronglySorted_app_2; [| done | repeat constructor].
        intros t1 t2 Ht1 ->%list_elem_of_singleton.
        by eapply Forall_forall in Hc'.
      * apply Forall_app. split; [done |]. by repeat constructor.
      * exists (dropped ++ older). unfold bucket_of.
        rewrite lookup_insert_eq. cbn [default].
        split; [| by apply Forall_app].
        rewrite Heq, Hsplit at 1. by rewrite <- !app_assoc.
  - assert (Hk : bucket_of
              (<[k := kept]> buckets) k' = bucket_of buckets k'
            ∧ bucket_of (<[k := kept ++ [now]]> buckets) k'
              = bucket_of buckets k').
    { unfold bucket_of. by rewrite !lookup_insert_ne. }
    destruct Hk as [Hk1 Hk2].
    destruct (Z.leb_spec (RATE_LIMIT_REQUESTS cfg) (Z.of_nat (length kept)));
      cbn [fst snd].
    + rewrite Hk1. split; [done |]. split; [done |]. by exists dropped.
    + rewrite Hk2, times_of_snoc, decide_False, app_nil_r by done.
      split; [done |]. split; [done |]. by exists dropped.
Qed.

Lemma run_rate_limit_snoc calls call :
  run_rate_limit cfg (calls ++ [call]) =
    rate_limit_step cfg (run_rate_limit cfg calls) call.
Proof. unfold run_rate_limit. by rewrite fold_left_app. Qed.

(** The invariant holds after every run with a monotonic clock. *)
Lemma run_rate_limit_inv (calls : list (Z * string)) (clock : Z) :
  StronglySorted Z.le (map fst calls ++ [clock]) →
  limiter_inv cfg clock (run_rate_limit cfg calls).
Proof.
  revert clock. induction calls as [|[t k] calls IH] using rev_ind;
    intros clock Hsorted.
  - apply limiter_inv_init.
  - rewrite run_rate_limit_snoc. rewrite map_app in Hsorted. cbn in Hsorted.
    apply limiter_inv_later with t.
    + eapply StronglySorted_app_1_elem_of; [exact Hsorted | |];
        set_solver.
    + apply limiter_inv_step with t; [lia |].
      apply IH. by apply StronglySorted_app_1_l in Hsorted.
Qed.

(** After pruning, the deque of a client holds exactly the admitted
    readings of the trailing window. *)
Lemma limiter_inv_live (clock now : Z) (k : string) s :
  clock ≤ now →
  limiter_inv cfg clock s →
  popleft_while (now - RATE_LIMIT_WINDOW_SECONDS cfg) (bucket_of s.1 k)
  = filter (λ t, now - RATE_LIMIT_WINDOW_SECONDS cfg ≤ t)
      (times_of k s.2).
Proof.
  intros Hle Hinv. destruct (Hinv k) as (Hs & Hc & dropped & Heq & Hold).
  rewrite Heq, filter_app.
  rewrite (filter_Forall_nil _ dropped).
  - cbn. apply popleft_while_sorted.
    rewrite Heq in Hs. by apply StronglySorted_app_1_r in Hs.
  - eapply Forall_impl; [exact Hold |]. cbn. lia.
Qed.
End limiter_invariant.

(** What a call at [now] does after a run with a monotonic clock: it
    counts the admitted readings of its client that are not older than the
    window. *)
Lemma enforce_rate_limit_after_run (cfg : Config)
    (calls : list (Z * string)) (now : Z) (client_ip : string) :
  StronglySorted Z.le (map fst calls ++ [now]) →
  let s := run_rate_limit cfg calls in
  let live :=
    filter (λ t, now - RATE_LIMIT_WINDOW_SECONDS cfg ≤ t)
      (times_of client_ip s.2) in
  enforce_rate_limit cfg now client_ip s.1 =
    if RATE_LIMIT_REQUESTS cfg <=? Z.of_nat (length live)
    then (<[client_ip := live]> s.1,
          inl (HTTPException 429 "Rate limit exceeded"))
    else (<[client_ip := live ++ [now]]> s.1, inr tt).
Proof.
  intros Hsorted s live.
  assert (Hlive : popleft_while (now - RATE_LIMIT_WINDOW_SECONDS cfg)
                    (bucket_of s.1 client_ip) = live).
  { apply limiter_inv_live with now; [lia |].
    by apply run_rate_limit_inv. }
  unfold enforce_rate_limit. fold (bucket_of s.1 client_ip).
  by rewrite Hlive.
Qed.

Lemma times_of_other (k k' : string) (history : list (Z * string)) (t : Z) :
  k' ≠ k → times_of k (history ++ [(t, k')]) = times_of k history.
Proof.
  intros Hne. by rewrite times_of_snoc, decide_False, app_nil_r.
Qed.

(** After a quiet spell, the calls of a client that are admitted are the
    first [RATE_LIMIT_REQUESTS] of its burst, as long as the burst lies in
    one window.  The spell is quiet when every reading admitted before has
    left the window of every call of the burst. *)
Lemma burst_admits_first (cfg : Config) (before burst : list (Z * string))
    (now : Z) (client_ip : string) :
  StronglySorted Z.le (map fst (before ++ burst) ++ [now]) →
  (∀ t, t ∈ times_of client_ip burst →
        Forall (λ a, a < t - RATE_LIMIT_WINDOW_SECONDS cfg)
          (times_of client_ip (run_rate_limit cfg before).2)) →
  Forall (λ t, now - RATE_LIMIT_WINDOW_SECONDS cfg ≤ t)
    (times_of client_ip burst) →
  times_of client_ip (run_rate_limit cfg (before ++ burst)).2 =
    times_of client_ip (run_rate_limit cfg before).2
    ++ take (Z.to_nat (RATE_LIMIT_REQUESTS cfg)) (times_of client_ip burst).
Proof.
  induction burst as [|[t k] burst IH] using rev_ind;
    intros Hsorted Hquiet Hwindow.
  { cbn. by rewrite take_nil, !app_nil_r. }
  rewrite app_assoc in Hsorted |- *.
  rewrite map_app in Hsorted. cbn [map fst] in Hsorted.
  assert (Ht : t ≤ now).
  { eapply StronglySorted_app_1_elem_of; [exact Hsorted | |]; set_solver. }
  assert (Hprefix : StronglySorted Z.le (map fst (before ++ burst) ++ [t])).
  { by apply StronglySorted_app_1_l in Hsorted. }
  assert (Hcalls : StronglySorted Z.le (map fst (before ++ burst) ++ [now])).
  { apply StronglySorted_app in Hsorted as (Hcross & Hleft & _).
    apply StronglySorted_app_1_l in Hleft.
    apply StronglySorted_app_2; [| done | repeat constructor].
    intros t1 t2 Ht1 ->%list_elem_of_singleton.
    apply Hcross; [| by apply list_elem_of_singleton].
    apply elem_of_app. by left. }
  rewrite run_rate_limit_snoc. unfold rate_limit_step. cbn [fst snd].
  rewrite (enforce_rate_limit_after_run cfg (before ++ burst) t k Hprefix).
  destruct (decide (k = client_ip)) as [-> | Hne].
  - rewrite times_of_snoc, decide_True in Hwindow, Hquiet by done.
    apply Forall_app in Hwindow as [Hwindow _].
    assert (Hold : Forall (λ a, a < t - RATE_LIMIT_WINDOW_SECONDS cfg)
                     (times_of client_ip (run_rate_limit cfg before).2)).
    { apply Hquiet. apply elem_of_app. right. by apply list_elem_of_singleton. }
    assert (IH' := IH Hcalls
                     (λ t' Ht', Hquiet t' (proj2 (elem_of_app _ _ _)
                                             (or_introl Ht')))
                     Hwindow).
    clear IH.
    set (called := times_of client_ip burst) in *.
    set (old := times_of client_ip (run_rate_limit cfg before).2) in *.
    set (admitted :=
           times_of client_ip (run_rate_limit cfg (before ++ burst)).2) in *.
    assert (Hlive : filter (λ t0, t - RATE_LIMIT_WINDOW_SECONDS cfg ≤ t0)
                      admitted
                    = take (Z.to_nat (RATE_LIMIT_REQUESTS cfg)) called).
    { rewrite IH', filter_app. rewrite (filter_Forall_nil _ old).
      - apply filter_Forall_id, Forall_take.
        eapply Forall_impl; [exact Hwindow |]. cbn. lia.
      - eapply Forall_impl; [exact Hold |]. cbn. lia. }
    rewrite Hlive, length_take.
    rewrite (times_of_snoc client_ip burst), decide_True by done.
    fold called.
    destruct (Z.leb_spec (RATE_LIMIT_REQUESTS cfg)
                (Z.of_nat
                   (Z.to_nat (RATE_LIMIT_REQUESTS cfg) `min` length called)));
      cbn [fst snd].
    + fold admitted. rewrite IH'. f_equal. symmetry. apply take_app_le. lia.
    + rewrite times_of_snoc, decide_True by done. fold admitted.
      rewrite IH', <- app_assoc. f_equal.
      rewrite !take_ge by (rewrite ?length_app; cbn; lia). done.
  - rewrite times_of_other in Hwindow, Hquiet by done.
    rewrite (times_of_other client_ip k burst) by done.
    rewrite <- (IH Hcalls Hquiet Hwindow).
    destruct (_ <=? _); cbn [fst snd]; [done |].
    by rewrite times_of_other.
Qed.

(** C1, as the code has it.  In a run with a monotonic clock, a call at
    [now] sees exactly the readings of its client that were admitted and
    are not older than [now - RATE_LIMIT_WINDOW_SECONDS] (older ones are
    dropped before the count).  With [RATE_LIMIT_REQUESTS] or more of them
    the call is rejected with 429 and records nothing; with fewer it is
    admitted and records [now].  In particular: when the run ends with a
    burst that followed a quiet spell, lies in the trailing window and has
    at least [RATE_LIMIT_REQUESTS] calls of the client, the call is
    rejected; once every admitted reading has left the window, the call is
    admitted if the limit is at least 1; and with a limit of 0 or less
    every call is rejected. *)
Theorem sliding_window_rate_limit (cfg : Config)
    (before burst : list (Z * string)) (now : Z) (client_ip : string) :
  StronglySorted Z.le (map fst (before ++ burst) ++ [now]) →
  let window := RATE_LIMIT_WINDOW_SECONDS cfg in
  let s := run_rate_limit cfg (before ++ burst) in
  let admitted := times_of client_ip s.2 in
  let live := filter (λ t, now - window ≤ t) admitted in
  let result := enforce_rate_limit cfg now client_ip s.1 in
  let rejected :=
    (<[client_ip := live]> s.1,
     inl (HTTPException 429 "Rate limit exceeded")) in
  (RATE_LIMIT_REQUESTS cfg ≤ Z.of_nat (length live) → result = rejected)
  ∧ (Z.of_nat (length live) < RATE_LIMIT_REQUESTS cfg →
       result = (<[client_ip := live ++ [now]]> s.1, inr tt))
  ∧ ((∀ t, t ∈ times_of client_ip burst →
           Forall (λ a, a < t - window)
             (times_of client_ip (run_rate_limit cfg before).2)) →
     Forall (λ t, now - window ≤ t) (times_of client_ip burst) →
     RATE_LIMIT_REQUESTS cfg
       ≤ Z.of_nat (length (times_of client_ip burst)) →
       result = rejected)
  ∧ (0 < RATE_LIMIT_REQUESTS cfg →
     Forall (λ t, t < now - window) admitted →
       result.2 = inr tt)
  ∧ (RATE_LIMIT_REQUESTS cfg ≤ 0 → result = rejected).
Proof.
  intros Hsorted window s admitted live result rejected.
  assert (Hresult : result =
            if RATE_LIMIT_REQUESTS cfg <=? Z.of_nat (length live)
            then rejected
            else (<[client_ip := live ++ [now]]> s.1, inr tt)).
  { by apply enforce_rate_limit_after_run. }
  assert (Hfull : RATE_LIMIT_REQUESTS cfg ≤ Z.of_nat (length live) →
                  result = rejected).
  { intros Hlen. rewrite Hresult.
    by destruct (Z.leb_spec (RATE_LIMIT_REQUESTS cfg)
                   (Z.of_nat (length live))); [| lia]. }
  assert (Hroom : Z.of_nat (length live) < RATE_LIMIT_REQUESTS cfg →
                  result = (<[client_ip := live ++ [now]]> s.1, inr tt)).
  { intros Hlen. rewrite Hresult.
    by destruct (Z.leb_spec (RATE_LIMIT_REQUESTS cfg)
                   (Z.of_nat (length live))); [lia |]. }
  split; [done |]. split; [done |]. split; [| split].
  - intros Hquiet Hwindow Hcalled. apply Hfull.
    assert (Hadmitted : admitted =
              times_of client_ip (run_rate_limit cfg before).2
              ++ take (Z.to_nat (RATE_LIMIT_REQUESTS cfg))
                   (times_of client_ip burst)).
    { by apply burst_admits_first with now. }
    subst live. rewrite Hadmitted, filter_app, length_app.
    rewrite (filter_Forall_id _ (take _ _)) by (by apply Forall_take).
    rewrite length_take. lia.
  - intros Hmax Hexpired.
    assert (Hnil : live = []).
    { subst live. apply filter_Forall_nil.
      eapply Forall_impl; [exact Hexpired |]. cbn. lia. }
    rewrite Hroom; [done |]. rewrite Hnil. cbn [length]. lia.
  - intros Hnone. apply Hfull. lia.
Qed.

(** After a first call long ago, two calls fill a window of two; the next
    call is turned away and leaves the deque as it was. *)
Lemma sliding_window_rate_limit_witness :
  enforce_rate_limit
    (mkConfig None (mkDecimal false 0 0) (mkDecimal false 0 0) 2 60)
    130 "10.0.0.7"
    (run_rate_limit
       (mkConfig None (mkDecimal false 0 0) (mkDecimal false 0 0) 2 60)
       ([(0, "10.0.0.7")] ++ [(100, "10.0.0.7"); (101, "10.0.0.7")])).1
  = (<["10.0.0.7" := [100; 101]]>
       (run_rate_limit
          (mkConfig None (mkDecimal false 0 0) (mkDecimal false 0 0) 2 60)
          ([(0, "10.0.0.7")] ++ [(100, "10.0.0.7"); (101, "10.0.0.7")])).1,
     inl (HTTPException 429 "Rate limit exceeded")).
Proof.
  refine (proj1 (proj2 (proj2
            (sliding_window_rate_limit
               (mkConfig None (mkDecimal false 0 0) (mkDecimal false 0 0)
                  2 60)
               [(0, "10.0.0.7")] [(100, "10.0.0.7"); (101, "10.0.0.7")]
               130 "10.0.0.7" _))) _ _ _).
  - repeat constructor; discriminate.
  - intros t Ht. repeat constructor.
    apply elem_of_cons in Ht as [-> | Ht]; [reflexivity |].
    apply elem_of_cons in Ht as [-> | Ht]; [reflexivity |].
    by apply elem_of_nil in Ht.
  - repeat constructor; discriminate.
  - vm_compute. discriminate.
Defined.

(** C1 as stated fails in two ways.  Rejected calls take no slot: with a
    limit of two, the calls at 50 and 55 are rejected, so at 100 the client
    has called twice within the trailing window and is admitted all the
    same.  And with a limit of zero, a call is rejected even though no
    request was made within the window. *)
Lemma sliding_window_counterexample :
  let cfg := mkConfig None (mkDecimal false 0 0) (mkDecimal false 0 0) 2 60 in
  let calls :=
    [(0, "10.0.0.7"); (1, "10.0.0.7"); (50, "10.0.0.7"); (55, "10.0.0.7")] in
  let none := mkConfig None (mkDecimal false 0 0) (mkDecimal false 0 0) 0 60 in
  (filter (λ t, 100 - 60 ≤ t) (times_of "10.0.0.7" calls) = [50; 55]
   ∧ (enforce_rate_limit cfg 100 "10.0.0.7" (run_rate_limit cfg calls).1).2
     = inr tt)
  ∧ (filter (λ t, 100 - 60 ≤ t) (times_of "10.0.0.7" [(0, "10.0.0.7")]) = []
     ∧ (enforce_rate_limit none 100 "10.0.0.7"
          (run_rate_limit none [(0, "10.0.0.7")]).1).2
       = inl (HTTPException 429 "Rate limit exceeded")).
Proof. cbv zeta. repeat split; by vm_compute. Qed.

(** ** The request handler *)

(** The rate limiter raises nothing but the 429. *)
Lemma enforce_rate_limit_raises cfg now k buckets buckets' e :
  enforce_rate_limit cfg now k buckets = (buckets', inl e) →
  e = HTTPException 429 "Rate limit exceeded".
Proof. unfold enforce_rate_limit. case_match; congruence. Qed.

(** The shared-secret check either passes or raises the 401, and never
    touches the state. *)
Lemma check_token_cases (cfg : Config) (x_atfood_token : option string)
    (st : State) :
  (check_token cfg x_atfood_token st = (st, inr tt)
   ∧ ¬ (truthy_opt (ATFOOD_API_TOKEN cfg) = true
        ∧ truthy_opt x_atfood_token = true
        ∧ x_atfood_token ≠ ATFOOD_API_TOKEN cfg))
  ∨ (check_token cfg x_atfood_token st
       = (st, inl (HTTPException 401 "Invalid token"))
     ∧ truthy_opt (ATFOOD_API_TOKEN cfg) = true
     ∧ truthy_opt x_atfood_token = true
     ∧ x_atfood_token ≠ ATFOOD_API_TOKEN cfg).
Proof.
  unfold check_token.
  destruct (truthy_opt (ATFOOD_API_TOKEN cfg)),
    (truthy_opt x_atfood_token); cbn [andb];
    try (left; split; [reflexivity | intros (? & ? & ?); discriminate]).
  case_decide.
  - right. done.
  - left. split; [reflexivity | tauto].
Qed.


Lemma truthy_false (s : string) : truthy s = false ↔ s = "".
Proof. destruct s; cbn; split; congruence. Qed.

(** Every request ends in one of the ways of [stage_outcome]. *)
Lemma atfood_endpoint_stages cfg w payload client x_atfood_token
    x_atfood_user st :
  stage_outcome cfg w payload client x_atfood_token x_atfood_user st
    (atfood_endpoint cfg w payload client x_atfood_token x_atfood_user st).
Proof.
  unfold atfood_endpoint.
  unfold mbind at 1. unfold Handler_bind at 1.
  destruct (check_token_cases cfg x_atfood_token st)
    as [[Hpass _] | (Hfail & H1 & H2 & H3)].
  2: { rewrite Hfail. by apply Ends_unauthorized. }
  rewrite Hpass.
  unfold mbind at 1. unfold Handler_bind at 1.
  unfold on_rate_buckets.
  destruct (enforce_rate_limit cfg (monotonic w) (default "unknown" client)
              (rate_buckets st)) as [buckets [e | []]] eqn:Hrate.
  { pose proof (enforce_rate_limit_raises _ _ _ _ _ _ Hrate) as ->.
    by apply Ends_rate_limited. }
  destruct (ACTION_PROMPTS !! action payload) as [prompt_builder|] eqn:Hact.
  2: { by apply Ends_unknown_action. }
  destruct (responses_create w (build_prompt prompt_builder payload))
    as [response|] eqn:Hresp.
  2: { by eapply Ends_provider_raised. }
  rewrite (surjective_pairing (extract_usage response)).
  destruct (total_cost_of cfg (extract_usage response).1
              (extract_usage response).2) as [signal | total_cost] eqn:Hcost.
  { by eapply Ends_cost_raised. }
  destruct (truthy (strip (extract_output_text response))) eqn:Htext;
    cbn [negb].
  2: { apply truthy_false in Htext. by eapply Ends_empty_output. }
  assert (strip (extract_output_text response) ≠ "") as Hne.
  { intros Hnil%truthy_false. congruence. }
  unfold mbind, Handler_bind, try_except, _store_conversation,
    new_AtfoodResponse, raise.
  destruct (insert_succeeds w) eqn:Hins;
    cbn [rate_buckets atfood_conversations].
  - destruct (is_finite total_cost) eqn:Hfinite.
    + by eapply Ends_ok.
    + by eapply Ends_response_invalid.
  - by eapply Ends_store_failed.
Qed.

Lemma check_token_passed (cfg : Config) (x_atfood_token : option string)
    (st st' : State) :
  check_token cfg x_atfood_token st = (st', inr tt) →
  ¬ (truthy_opt (ATFOOD_API_TOKEN cfg) = true
     ∧ truthy_opt x_atfood_token = true
     ∧ x_atfood_token ≠ ATFOOD_API_TOKEN cfg).
Proof.
  intros Hpass.
  destruct (check_token_cases cfg x_atfood_token st)
    as [[_ Hno] | [Hfail _]]; [done | congruence].
Qed.

Lemma truthy_opt_true (x : option string) :
  truthy_opt x = true ↔ ∃ s, x = Some s ∧ s ≠ "".
Proof.
  destruct x as [[|c s]|]; cbn; split;
    try discriminate; try (intros (? & ? & ?); congruence).
  intros _. by eexists.
Qed.

(** Hypotheses of two stages that exclude one another. *)
Ltac stages_clash :=
  match goal with
  | H : check_token _ _ _ = (_, inr tt) |- _ =>
      by (apply check_token_passed in H; tauto)
  | _ => congruence
  end.

(** Among the ways a request can end, the 401 is the one of the failed
    shared-secret check and of nothing else. *)
Lemma stage_outcome_unauthorized cfg w payload client x_atfood_token
    x_atfood_user st out :
  stage_outcome cfg w payload client x_atfood_token x_atfood_user st out →
  (∃ detail, out.2 = inl (HTTPException 401 detail))
  ↔ (truthy_opt (ATFOOD_API_TOKEN cfg) = true
     ∧ truthy_opt x_atfood_token = true
     ∧ x_atfood_token ≠ ATFOOD_API_TOKEN cfg).
Proof.
  destruct 1 as [Hs Ht Hne | ? Hpass | ? Hpass | ? ? Hpass | ? ? ? ? Hpass
                | ? ? ? ? Hpass | ? ? ? ? Hpass | ? ? ? ? Hpass
                | ? ? ? ? Hpass];
    cbn [snd]; (split; [intros [detail Hout] | intros Hrejected]);
    try discriminate Hout;
    try (by apply check_token_passed in Hpass).
  - done.
  - by eexists.
Qed.

(** C8, as the code has it: the request is answered with 401 exactly when
    a non-empty shared secret is configured, the caller sent a non-empty
    token header, and the two differ; without a token header the request
    passes the check. *)
Theorem unauthorized_iff_nonempty_mismatch (cfg : Config) (w : World)
    (payload : AtfoodRequest) (client : option string)
    (x_atfood_token x_atfood_user : option string) (st : State) :
  ((∃ detail,
      (atfood_endpoint cfg w payload client x_atfood_token x_atfood_user
         st).2 = inl (HTTPException 401 detail))
   ↔ (∃ secret token,
        ATFOOD_API_TOKEN cfg = Some secret ∧ secret ≠ ""
        ∧ x_atfood_token = Some token ∧ token ≠ ""
        ∧ token ≠ secret))
  ∧ (x_atfood_token = None →
       check_token cfg x_atfood_token st = (st, inr tt)).
Proof.
  split.
  - rewrite (stage_outcome_unauthorized _ _ _ _ _ _ _ _
               (atfood_endpoint_stages cfg w payload client x_atfood_token
                  x_atfood_user st)).
    rewrite !truthy_opt_true. split.
    + intros ((secret & Hsecret & Hs) & (token & Htoken & Ht) & Hne).
      exists secret, token. repeat split; try done. congruence.
    + intros (secret & token & Hsecret & Hs & Htoken & Ht & Hne).
      split; [by exists secret |]. split; [by exists token |]. congruence.
  - intros ->. unfold check_token. cbn [truthy_opt].
    by rewrite andb_false_r.
Qed.

Lemma unauthorized_iff_nonempty_mismatch_witness :
  check_token sample_config None fresh_state = (fresh_state, inr tt).
Proof.
  apply (unauthorized_iff_nonempty_mismatch sample_config
           (sample_world sample_response true) sample_request None None None
           fresh_state).
  reflexivity.
Defined.

(** C8 as stated fails when the token header is sent with an empty value:
    a secret is configured, a header is supplied, the two differ, and yet
    the request is served. *)
Lemma unauthorized_iff_counterexample :
  ¬ ((∃ detail,
        (atfood_endpoint sample_config (sample_world sample_response true)
           sample_request None (Some "") None fresh_state).2
        = inl (HTTPException 401 detail))
     ↔ (∃ secret token,
          ATFOOD_API_TOKEN sample_config = Some secret
          ∧ Some "" = Some token
          ∧ token ≠ secret)).
Proof.
  intros [_ Hclaim].
  destruct Hclaim as [detail Hout].
  - exists "s3cret", "". repeat split. discriminate.
  - vm_compute in Hout. discriminate.
Qed.

(** ** Trimming *)

Lemma string_app_assoc (a b c : string) :
  (a +:+ b) +:+ c = a +:+ (b +:+ c).
Proof.
  induction a as [|x a IH]; [done |].
  change (String x ((a +:+ b) +:+ c) = String x (a +:+ (b +:+ c))).
  by rewrite IH.
Qed.

Lemma string_app_nil_r (a : string) : a +:+ "" = a.
Proof.
  induction a as [|x a IH]; [done |].
  change (String x (a +:+ "") = String x a). by rewrite IH.
Qed.

Lemma string_app_cons (c : ascii) (a b : string) :
  String c a +:+ b = String c (a +:+ b).
Proof. reflexivity. Qed.

Lemma lstrip_1 (c1 : ascii) :
  lstrip (String c1 "") = if isspace (String c1 "") then "" else String c1 "".
Proof. reflexivity. Qed.

Lemma lstrip_2 (c1 c2 : ascii) :
  lstrip (String c1 (String c2 "")) =
    if isspace (String c1 "") then lstrip (String c2 "")
    else if isspace (String c1 (String c2 "")) then ""
    else String c1 (String c2 "").
Proof. reflexivity. Qed.

Lemma lstrip_3 (c1 c2 c3 : ascii) (s : string) :
  lstrip (String c1 (String c2 (String c3 s))) =
    if isspace (String c1 "") then lstrip (String c2 (String c3 s))
    else if isspace (String c1 (String c2 "")) then lstrip (String c3 s)
    else if isspace (String c1 (String c2 (String c3 ""))) then lstrip s
    else String c1 (String c2 (String c3 s)).
Proof. reflexivity. Qed.

(** What [lstrip] returns does not begin with a whitespace character. *)
Lemma lstrip_no_whitespace (s : string) :
  starts_with_whitespace (lstrip s) = false.
Proof.
  assert (Hall : ∀ (n : nat) s, (String.length s ≤ n)%nat →
                   starts_with_whitespace (lstrip s) = false).
  { clear s. induction n as [|n IH]; intros s Hlen.
    { destruct s; [done | cbn in Hlen; lia]. }
    destruct s as [|c1 [|c2 [|c3 s3]]]; [done | | |];
      cbn [String.length] in Hlen;
      rewrite ?lstrip_1, ?lstrip_2, ?lstrip_3.
    - destruct (isspace (String c1 "")) eqn:H1; [done |].
      cbn [starts_with_whitespace]. by rewrite H1.
    - destruct (isspace (String c1 "")) eqn:H1; [apply IH; cbn; lia |].
      destruct (isspace (String c1 (String c2 ""))) eqn:H2; [done |].
      cbn [starts_with_whitespace]. by rewrite H1, H2.
    - destruct (isspace (String c1 "")) eqn:H1; [apply IH; cbn; lia |].
      destruct (isspace (String c1 (String c2 ""))) eqn:H2;
        [apply IH; cbn; lia |].
      destruct (isspace (String c1 (String c2 (String c3 "")))) eqn:H3;
        [apply IH; lia |].
      cbn [starts_with_whitespace]. by rewrite H1, H2, H3. }
  by apply (Hall (String.length s)).
Qed.

(** [lstrip] leaves a string alone that does not begin with whitespace. *)
Lemma lstrip_fixed (s : string) :
  starts_with_whitespace s = false → lstrip s = s.
Proof.
  destruct s as [|c1 [|c2 [|c3 s3]]]; [done | | |];
    rewrite ?lstrip_1, ?lstrip_2, ?lstrip_3;
    cbn [starts_with_whitespace];
    repeat match goal with
      | |- context [isspace ?ch] => destruct (isspace ch)
      end; done.
Qed.

Lemma starts_with_whitespace_app (a b : string) :
  starts_with_whitespace a = true → starts_with_whitespace (a +:+ b) = true.
Proof.
  destruct a as [|c1 [|c2 [|c3 a]]]; [done | | |];
    rewrite ?string_app_cons; cbn [starts_with_whitespace];
    repeat match goal with
      | |- context [isspace ?ch] => destruct (isspace ch)
      end; try done.
Qed.

Lemma rstrip_cons (c : ascii) (s : string) :
  rstrip (String c s) =
    if isspace (String c (rstrip s)) then "" else String c (rstrip s).
Proof. reflexivity. Qed.

(** [rstrip] keeps a prefix and cuts a blank tail. *)
Lemma rstrip_split (s : string) :
  ∃ tail, blank tail ∧ s = rstrip s +:+ tail.
Proof.
  induction s as [|c s (tail & Htail & Hs)]; [exists ""; split; [constructor | done] |].
  rewrite rstrip_cons. destruct (isspace (String c (rstrip s))) eqn:Hc.
  - exists (String c (rstrip s) +:+ tail). split; [by constructor |].
    change (String c s = String c (rstrip s +:+ tail)). by rewrite <- Hs.
  - exists tail. split; [done |].
    change (String c s = String c (rstrip s +:+ tail)). by rewrite <- Hs.
Qed.

Lemma rstrip_idempotent (s : string) : rstrip (rstrip s) = rstrip s.
Proof.
  induction s as [|c s IH]; [done |].
  rewrite rstrip_cons. destruct (isspace (String c (rstrip s))) eqn:Hc; [done |].
  by rewrite rstrip_cons, IH, Hc.
Qed.

(** Trimming a trimmed string changes nothing. *)
Lemma strip_idempotent (s : string) : strip (strip s) = strip s.
Proof.
  unfold strip. rewrite lstrip_fixed; [apply rstrip_idempotent |].
  destruct (starts_with_whitespace (rstrip (lstrip s))) eqn:Hstarts; [| done].
  destruct (rstrip_split (lstrip s)) as (tail & _ & Hsplit).
  apply (starts_with_whitespace_app _ tail) in Hstarts.
  rewrite <- Hsplit in Hstarts. by rewrite lstrip_no_whitespace in Hstarts.
Qed.






(** ** Persistence and responses *)

(** C2: a request is answered successfully only if its INSERT went through
    and added exactly one row, the row of this exchange; and when the
    INSERT fails after the provider returned a non-empty text, the caller
    gets no successful response and the table is as before: once the cost
    is computed the request reaches the INSERT and ends with the 500. *)
Theorem success_needs_stored_record (cfg : Config) (w : World)
    (payload : AtfoodRequest) (client : option string)
    (x_atfood_token x_atfood_user : option string) (st : State) :
  let out :=
    atfood_endpoint cfg w payload client x_atfood_token x_atfood_user st in
  (∀ resp,
     out.2 = inr resp →
     insert_succeeds w = true
     ∧ ∃ row,
         atfood_conversations out.1 = atfood_conversations st ++ [row]
         ∧ rec_action row = action payload
         ∧ rec_response_text row = resp_text resp
         ∧ rec_prompt_tokens row = resp_prompt_tokens resp
         ∧ rec_response_tokens row = resp_response_tokens resp
         ∧ rec_total_cost row = resp_total_cost resp)
  ∧ (∀ buckets prompt_builder response,
       check_token cfg x_atfood_token st = (st, inr tt) →
       enforce_rate_limit cfg (monotonic w) (default "unknown" client)
         (rate_buckets st) = (buckets, inr tt) →
       ACTION_PROMPTS !! action payload = Some prompt_builder →
       responses_create w (build_prompt prompt_builder payload)
         = Some response →
       strip (extract_output_text response) ≠ "" →
       insert_succeeds w = false →
       (∀ resp, out.2 ≠ inr resp)
       ∧ atfood_conversations out.1 = atfood_conversations st
       ∧ ∀ total_cost,
           total_cost_of cfg (extract_usage response).1
             (extract_usage response).2 = inr total_cost →
           out = (mkState buckets (atfood_conversations st),
                  inl (HTTPException 500 "Failed to save conversation"))).
Proof.
  intros out.
  pose proof (atfood_endpoint_stages cfg w payload client x_atfood_token
                x_atfood_user st) as Hstage.
  fold out in Hstage. split.
  - intros resp Hout.
    inversion Hstage as [| | | | | | | | buckets pb response cost Hpass Hrate
                           Hact Hresp Hcost Htext Hins Hfinite Heq];
      try match goal with
        | Heq : _ = out |- _ => rewrite <- Heq in Hout; cbn in Hout;
                                discriminate
        end.
    rewrite <- Heq in Hout. cbn in Hout. injection Hout as <-.
    split; [done |]. cbn [fst atfood_conversations]. by eexists.
  - intros buckets pb response Hpass Hrate Hact Hresp Htext Hins.
    split; [| split].
    + intros resp Hout.
      inversion Hstage;
        try match goal with
          | Heq : _ = out |- _ => rewrite <- Heq in Hout; cbn in Hout;
                                  discriminate
          end.
      congruence.
    + inversion Hstage; try reflexivity; congruence.
    + intros total_cost Hcost. inversion Hstage; stages_clash.
Qed.

Lemma success_needs_stored_record_witness :
  (∃ row,
     atfood_conversations
       (atfood_endpoint sample_config (sample_world sample_response true)
          sample_request (Some "10.0.0.7") None None fresh_state).1
     = atfood_conversations fresh_state ++ [row])
  ∧ atfood_endpoint sample_config (sample_world sample_response false)
      sample_request (Some "10.0.0.7") None None fresh_state
    = (mkState {[ "10.0.0.7" := [100] ]} [],
       inl (HTTPException 500 "Failed to save conversation")).
Proof.
  split.
  - destruct (proj1 (success_needs_stored_record sample_config
                       (sample_world sample_response true) sample_request
                       (Some "10.0.0.7") None None fresh_state)
                (mkAtfoodResponse "Sear it hard." 1000 500
                   (mkDecimal false 500 (-2))))
      as (_ & row & Hrow & _); [by vm_compute |].
    by exists row.
  - refine (proj2 (proj2
              (proj2 (success_needs_stored_record sample_config
                        (sample_world sample_response false) sample_request
                        (Some "10.0.0.7") None None fresh_state)
                 {[ "10.0.0.7" := [100] ]} open_ai_kitchen sample_response
                 _ _ _ _ _ _))
              (mkDecimal false 500 (-2)) _);
      by vm_compute.
Defined.




(** ** The slot taken by an admitted request *)

Lemma enforce_rate_limit_admitted cfg now k buckets buckets' :
  enforce_rate_limit cfg now k buckets = (buckets', inr tt) →
  buckets' =
    <[k := popleft_while (now - RATE_LIMIT_WINDOW_SECONDS cfg)
             (bucket_of buckets k) ++ [now]]> buckets.
Proof.
  unfold enforce_rate_limit, bucket_of. case_match; congruence.
Qed.

(** C10, as the code has it: a request that passes the shared-secret check
    and the rate limiter leaves, however it ends afterwards (unknown action,
    provider failure, failed cost expression, empty output, failed INSERT,
    refused response or success), the
    dictionary in which its client's deque has lost the readings older than
    the window and gained the current reading, and nothing else has
    changed; when no reading had expired, the deque is the old one with the
    current reading appended. *)
Theorem admitted_request_takes_slot (cfg : Config) (w : World)
    (payload : AtfoodRequest) (client : option string)
    (x_atfood_token x_atfood_user : option string) (st : State)
    (buckets : gmap string (list Z)) :
  check_token cfg x_atfood_token st = (st, inr tt) →
  enforce_rate_limit cfg (monotonic w) (default "unknown" client)
    (rate_buckets st) = (buckets, inr tt) →
  let out :=
    atfood_endpoint cfg w payload client x_atfood_token x_atfood_user st in
  let client_ip := default "unknown" client in
  let window := bucket_of (rate_buckets st) client_ip in
  let cutoff := monotonic w - RATE_LIMIT_WINDOW_SECONDS cfg in
  rate_buckets out.1 =
    <[client_ip := popleft_while cutoff window ++ [monotonic w]]>
      (rate_buckets st)
  ∧ (ACTION_PROMPTS !! action payload = None →
       out.2 = inl (HTTPException 400 "Unknown action"))
  ∧ (Forall (λ t, cutoff ≤ t) window →
       rate_buckets out.1 =
         <[client_ip := window ++ [monotonic w]]> (rate_buckets st)).
Proof.
  intros Hpass Hrate out client_ip window cutoff.
  pose proof (enforce_rate_limit_admitted _ _ _ _ _ Hrate) as Hbuckets.
  pose proof (atfood_endpoint_stages cfg w payload client x_atfood_token
                x_atfood_user st) as Hstage.
  fold out in Hstage.
  assert (Hout : rate_buckets out.1 = buckets
                 ∧ (ACTION_PROMPTS !! action payload = None →
                    out.2 = inl (HTTPException 400 "Unknown action"))).
  { inversion Hstage; try stages_clash; cbn [fst snd rate_buckets];
      (split; [congruence | intros; congruence]). }
  destruct Hout as [Hfinal H400]. rewrite Hfinal, Hbuckets.
  split; [done |]. split; [done |].
  intros Hfresh. subst window cutoff client_ip.
  destruct (popleft_while_split
              (monotonic w - RATE_LIMIT_WINDOW_SECONDS cfg)
              (bucket_of (rate_buckets st) (default "unknown" client)))
    as (dropped & Hsplit & Hold).
  destruct dropped as [|t dropped].
  - cbn in Hsplit. by rewrite <- Hsplit.
  - rewrite Hsplit in Hfresh. apply Forall_app in Hfresh as [Hfresh _].
    apply Forall_cons in Hfresh as [Ht _].
    apply Forall_cons in Hold as [Ht' _]. lia.
Qed.

(** A request with an unknown action, made when the one earlier reading of
    its client has left the window. *)
Lemma admitted_request_takes_slot_witness :
  rate_buckets
    (atfood_endpoint sample_config (sample_world sample_response true)
       (mkRequest "bake_bread" None None None None None) (Some "10.0.0.7")
       None None (mkState {[ "10.0.0.7" := [0] ]} [])).1
  = <["10.0.0.7" := [100]]> {[ "10.0.0.7" := [0] ]}.
Proof.
  refine (proj1 (admitted_request_takes_slot sample_config
                   (sample_world sample_response true)
                   (mkRequest "bake_bread" None None None None None)
                   (Some "10.0.0.7") None None
                   (mkState {[ "10.0.0.7" := [0] ]} [])
                   (<["10.0.0.7" := [100]]> {[ "10.0.0.7" := [0] ]}) _ _));
    by vm_compute.
Defined.

(** C10 as stated fails when a reading of the client has expired: the
    request passes both checks, and the deque it leaves is not the old one
    with the current reading appended. *)
Lemma appended_timestamp_only_change_counterexample :
  let st := mkState {[ "10.0.0.7" := [0] ]} [] in
  let w := sample_world sample_response true in
  let out :=
    atfood_endpoint sample_config w sample_request (Some "10.0.0.7") None None
      st in
  check_token sample_config None st = (st, inr tt)
  ∧ (enforce_rate_limit sample_config (monotonic w) "10.0.0.7"
       (rate_buckets st)).2 = inr tt
  ∧ rate_buckets out.1 ≠
      <["10.0.0.7" := bucket_of (rate_buckets st) "10.0.0.7" ++ [monotonic w]]>
        (rate_buckets st).
Proof.
  cbv zeta. split; [reflexivity |]. split; [by vm_compute |].
  intros Heq.
  apply (f_equal (λ m : gmap string (list Z), m !! "10.0.0.7")) in Heq.
  vm_compute in Heq. discriminate.
Qed.

(** ** Decimal arithmetic and the cost *)
















Lemma div_eucl_div_mod (a b : Z) : Z.div_eucl a b = (a / b, a mod b).
Proof. unfold Z.div, Z.modulo. by destruct (Z.div_eucl a b). Qed.








(** * Further properties of the code *)

(** ** The rate limiter over whole runs *)

Lemma filter_length_mono {A} (P Q : A → Prop) `{!∀ x, Decision (P x)}
    `{!∀ x, Decision (Q x)} (l : list A) :
  (∀ x, P x → Q x) →
  (length (filter P l) ≤ length (filter Q l))%nat.
Proof.
  intros Himpl. induction l as [|x l IH]; [done |].
  rewrite !filter_cons.
  destruct (decide (P x)) as [HP | HP].
  - rewrite decide_True by auto. cbn. lia.
  - destruct (decide (Q x)); cbn; lia.
Qed.

Lemma sorted_snoc_prefix (ts : list Z) (t : Z) :
  StronglySorted Z.le (ts ++ [t]) → StronglySorted Z.le ts.
Proof. apply StronglySorted_app_1_l. Qed.

(** In a run with a monotonic clock no client gets more than
    [RATE_LIMIT_REQUESTS] calls admitted within any stretch of
    [RATE_LIMIT_WINDOW_SECONDS]. *)
Theorem admitted_per_window_bounded (cfg : Config)
    (calls : list (Z * string)) (client_ip : string) (start : Z) :
  0 ≤ RATE_LIMIT_REQUESTS cfg →
  StronglySorted Z.le (map fst calls) →
  Z.of_nat
    (length
       (filter (λ t, start ≤ t ≤ start + RATE_LIMIT_WINDOW_SECONDS cfg)
          (times_of client_ip (run_rate_limit cfg calls).2)))
  ≤ RATE_LIMIT_REQUESTS cfg.
Proof.
  intros Hmax. induction calls as [|[t k] calls IH] using rev_ind;
    intros Hsorted; [cbn; lia |].
  rewrite map_app in Hsorted. cbn [map fst] in Hsorted.
  specialize (IH (sorted_snoc_prefix _ _ Hsorted)).
  rewrite run_rate_limit_snoc. unfold rate_limit_step. cbn [fst snd].
  rewrite (enforce_rate_limit_after_run cfg calls t k Hsorted).
  destruct (Z.leb_spec (RATE_LIMIT_REQUESTS cfg)
              (Z.of_nat
                 (length
                    (filter (λ t0, t - RATE_LIMIT_WINDOW_SECONDS cfg ≤ t0)
                       (times_of k (run_rate_limit cfg calls).2)))))
    as [Hfull | Hroom]; cbn [fst snd]; [done |].
  rewrite times_of_snoc. destruct (decide (k = client_ip)) as [-> | Hne].
  2: { by rewrite app_nil_r. }
  rewrite filter_app, length_app, filter_cons, filter_nil.
  destruct (decide (start ≤ t ≤ start + RATE_LIMIT_WINDOW_SECONDS cfg))
    as [Hin | Hout]; cbn [length]; [| lia].
  assert (Hmono :
            Z.of_nat
              (length
                 (filter
                    (λ t0, start ≤ t0 ≤ start + RATE_LIMIT_WINDOW_SECONDS cfg)
                    (times_of client_ip (run_rate_limit cfg calls).2)))
            ≤ Z.of_nat
                (length
                   (filter (λ t0, t - RATE_LIMIT_WINDOW_SECONDS cfg ≤ t0)
                      (times_of client_ip (run_rate_limit cfg calls).2)))).
  { apply Nat2Z.inj_le, filter_length_mono. intros t0 Ht0. lia. }
  lia.
Qed.

Lemma admitted_per_window_bounded_witness :
  Z.of_nat
    (length
       (filter (λ t, 0 ≤ t ≤ 0 + 60)
          (times_of "10.0.0.7"
             (run_rate_limit
                (mkConfig None (mkDecimal false 0 0) (mkDecimal false 0 0)
                   2 60)
                [(0, "10.0.0.7"); (10, "10.0.0.7"); (20, "10.0.0.7");
                 (61, "10.0.0.7")]).2)))
  ≤ 2.
Proof.
  apply (admitted_per_window_bounded
           (mkConfig None (mkDecimal false 0 0) (mkDecimal false 0 0) 2 60)
           [(0, "10.0.0.7"); (10, "10.0.0.7"); (20, "10.0.0.7");
            (61, "10.0.0.7")] "10.0.0.7" 0).
  - discriminate.
  - repeat constructor; discriminate.
Defined.

Lemma popleft_while_length (cutoff : Z) (window : list Z) :
  (length (popleft_while cutoff window) ≤ length window)%nat.
Proof.
  destruct (popleft_while_split cutoff window) as (dropped & Hsplit & _).
  rewrite Hsplit at 2. rewrite length_app. lia.
Qed.

Lemma enforce_rate_limit_other (cfg : Config) (now : Z) (k k' : string)
    (buckets : gmap string (list Z)) :
  k ≠ k' →
  (enforce_rate_limit cfg now k buckets).1 !! k' = buckets !! k'.
Proof.
  intros Hne. unfold enforce_rate_limit.
  case_match; cbn [fst]; by rewrite lookup_insert_ne.
Qed.

(** Whatever the clock does, no deque ever holds more than
    [RATE_LIMIT_REQUESTS] readings (none at all when the limit is zero or
    negative). *)
Theorem bucket_length_bounded (cfg : Config) (calls : list (Z * string))
    (client_ip : string) :
  Z.of_nat (length (bucket_of (run_rate_limit cfg calls).1 client_ip))
  ≤ Z.max 0 (RATE_LIMIT_REQUESTS cfg).
Proof.
  induction calls as [|[t k] calls IH] using rev_ind.
  - unfold bucket_of. cbn. rewrite lookup_empty. cbn. lia.
  - rewrite run_rate_limit_snoc. unfold rate_limit_step. cbn [fst snd].
    destruct (enforce_rate_limit cfg t k (run_rate_limit cfg calls).1)
      as [buckets r] eqn:Hcall.
    cbn [fst]. destruct (decide (k = client_ip)) as [-> | Hne].
    + unfold enforce_rate_limit in Hcall.
      fold (bucket_of (run_rate_limit cfg calls).1 client_ip) in Hcall.
      pose proof (popleft_while_length
                    (t - RATE_LIMIT_WINDOW_SECONDS cfg)
                    (bucket_of (run_rate_limit cfg calls).1 client_ip)).
      destruct (Z.leb_spec (RATE_LIMIT_REQUESTS cfg)
                  (Z.of_nat
                     (length
                        (popleft_while (t - RATE_LIMIT_WINDOW_SECONDS cfg)
                           (bucket_of (run_rate_limit cfg calls).1
                              client_ip)))));
        injection Hcall as <- <-; unfold bucket_of at 1;
        rewrite lookup_insert_eq; cbn [default from_option id];
        rewrite ?length_app; cbn [length]; lia.
    + pose proof (enforce_rate_limit_other cfg t k client_ip
                    (run_rate_limit cfg calls).1 Hne) as Hother.
      rewrite Hcall in Hother. cbn [fst] in Hother.
      unfold bucket_of in *. by rewrite Hother.
Qed.

(** With a monotonic clock and a window that is not negative, the deque a
    call leaves for its client is in chronological order and holds only
    readings of the trailing window [[now - window, now]]. *)
Theorem bucket_after_call_in_window (cfg : Config)
    (calls : list (Z * string)) (now : Z) (client_ip : string) :
  0 ≤ RATE_LIMIT_WINDOW_SECONDS cfg →
  StronglySorted Z.le (map fst calls ++ [now]) →
  let after :=
    bucket_of
      (enforce_rate_limit cfg now client_ip (run_rate_limit cfg calls).1).1
      client_ip in
  StronglySorted Z.le after
  ∧ Forall (λ t, now - RATE_LIMIT_WINDOW_SECONDS cfg ≤ t ≤ now) after.
Proof.
  intros Hwindow Hsorted after.
  destruct (run_rate_limit_inv cfg calls now Hsorted client_ip)
    as (Hs & Hc & dropped & Heq & _).
  set (s := run_rate_limit cfg calls) in *.
  assert (Hbucket : StronglySorted Z.le (bucket_of s.1 client_ip)
                    ∧ Forall (λ t, t ≤ now) (bucket_of s.1 client_ip)).
  { rewrite Heq in Hs, Hc. apply StronglySorted_app_1_r in Hs.
    by apply Forall_app in Hc as [_ Hc]. }
  destruct Hbucket as [Hbs Hbc].
  destruct (popleft_while_split (now - RATE_LIMIT_WINDOW_SECONDS cfg)
              (bucket_of s.1 client_ip)) as (older & Hsplit & _).
  pose proof (popleft_while_sorted (now - RATE_LIMIT_WINDOW_SECONDS cfg)
                (bucket_of s.1 client_ip) Hbs) as Hkept.
  set (kept := popleft_while _ _) in *.
  assert (Hks : StronglySorted Z.le kept).
  { rewrite Hsplit in Hbs. by apply StronglySorted_app_1_r in Hbs. }
  assert (Hkw : Forall (λ t, now - RATE_LIMIT_WINDOW_SECONDS cfg ≤ t ≤ now)
                  kept).
  { apply Forall_forall. intros t Ht. split.
    - rewrite Hkept in Ht. by apply list_elem_of_filter in Ht as [Ht _].
    - rewrite Hsplit in Hbc. apply Forall_app in Hbc as [_ Hbc].
      by eapply Forall_forall in Hbc. }
  assert (Hafter : after = kept ∨ after = kept ++ [now]).
  { subst after. unfold enforce_rate_limit.
    fold (bucket_of s.1 client_ip). fold kept.
    destruct (_ <=? _); cbn [fst]; unfold bucket_of;
      rewrite lookup_insert_eq; auto. }
  destruct Hafter as [-> | ->].
  - by split.
  - split.
    + apply StronglySorted_app_2; [| done | repeat constructor].
      intros t1 t2 Ht1 ->%list_elem_of_singleton.
      eapply Forall_forall in Hkw; [| exact Ht1]. lia.
    + apply Forall_app. split; [done |]. repeat constructor; lia.
Qed.

Lemma bucket_after_call_in_window_witness :
  Forall (λ t, 100 - 60 ≤ t ≤ 100)
    (bucket_of
       (enforce_rate_limit sample_config 100 "10.0.0.7"
          (run_rate_limit sample_config
             [(0, "10.0.0.7"); (50, "10.0.0.7")]).1).1
       "10.0.0.7").
Proof.
  refine (proj2 (bucket_after_call_in_window sample_config
                   [(0, "10.0.0.7"); (50, "10.0.0.7")] 100 "10.0.0.7" _ _)).
  - discriminate.
  - repeat constructor; discriminate.
Defined.

(** ** The request handler: what each way of ending leaves behind *)

(** A request changes the deque of its own client at most: every other
    client's entry in [_rate_buckets] is as before. *)
Theorem other_clients_untouched (cfg : Config) (w : World)
    (payload : AtfoodRequest) (client : option string)
    (x_atfood_token x_atfood_user : option string) (st : State)
    (other : string) :
  other ≠ default "unknown" client →
  rate_buckets
    (atfood_endpoint cfg w payload client x_atfood_token x_atfood_user st).1
    !! other
  = rate_buckets st !! other.
Proof.
  intros Hother.
  pose proof (atfood_endpoint_stages cfg w payload client x_atfood_token
                x_atfood_user st) as Hstage.
  assert (Hcall : ∀ buckets r,
            enforce_rate_limit cfg (monotonic w) (default "unknown" client)
              (rate_buckets st) = (buckets, r) →
            buckets !! other = rate_buckets st !! other).
  { intros buckets r Hcall.
    rewrite <- (enforce_rate_limit_other cfg (monotonic w)
                  (default "unknown" client) other (rate_buckets st))
      by done.
    by rewrite Hcall. }
  inversion Hstage; cbn [fst rate_buckets]; eauto.
Qed.

Lemma other_clients_untouched_witness :
  rate_buckets
    (atfood_endpoint sample_config (sample_world sample_response true)
       sample_request (Some "10.0.0.7") None None
       (mkState {[ "10.0.0.8" := [3; 4] ]} [])).1
    !! "10.0.0.8"
  = Some [3; 4].
Proof.
  rewrite (other_clients_untouched sample_config
             (sample_world sample_response true) sample_request
             (Some "10.0.0.7") None None
             (mkState {[ "10.0.0.8" := [3; 4] ]} []) "10.0.0.8");
    [reflexivity | discriminate].
Defined.

(** A request with a wrong token is answered with 401 before anything
    else is looked at: whatever the deque of the client, the action, the
    provider and the database, the state is left exactly as it was (no slot
    of the rate limiter is taken). *)
Theorem wrong_token_changes_nothing (cfg : Config) (w : World)
    (payload : AtfoodRequest) (client : option string)
    (x_atfood_user : option string) (st : State) (secret token : string) :
  ATFOOD_API_TOKEN cfg = Some secret →
  secret ≠ "" → token ≠ "" → token ≠ secret →
  atfood_endpoint cfg w payload client (Some token) x_atfood_user st
  = (st, inl (HTTPException 401 "Invalid token")).
Proof.
  intros Hsecret Hs Ht Hne.
  pose proof (atfood_endpoint_stages cfg w payload client (Some token)
                x_atfood_user st) as Hstage.
  assert (Hrejected : truthy_opt (ATFOOD_API_TOKEN cfg) = true
                      ∧ truthy_opt (Some token) = true
                      ∧ Some token ≠ ATFOOD_API_TOKEN cfg).
  { rewrite Hsecret. repeat split.
    - by destruct secret.
    - by destruct token.
    - congruence. }
  inversion Hstage; try done;
    match goal with
    | H : check_token _ _ _ = (_, inr tt) |- _ =>
        by apply check_token_passed in H
    end.
Qed.

Lemma wrong_token_changes_nothing_witness :
  atfood_endpoint sample_config (sample_world sample_response true)
    sample_request (Some "10.0.0.7") (Some "guess") None
    (mkState {[ "10.0.0.7" := [0] ]} [])
  = (mkState {[ "10.0.0.7" := [0] ]} [],
     inl (HTTPException 401 "Invalid token")).
Proof.
  apply (wrong_token_changes_nothing sample_config
           (sample_world sample_response true) sample_request
           (Some "10.0.0.7") None (mkState {[ "10.0.0.7" := [0] ]} [])
           "s3cret" "guess"); [reflexivity | discriminate..].
Defined.

(** A request that the rate limiter turns away ends with 429 whatever its
    action (known or not), the provider and the database: no row is
    stored, and the deque of the client is the old one without its expired
    front, with no reading added. *)
Theorem rate_limited_before_action (cfg : Config) (w : World)
    (payload : AtfoodRequest) (client : option string)
    (x_atfood_token x_atfood_user : option string) (st : State)
    (buckets : gmap string (list Z)) (e : Raised) :
  check_token cfg x_atfood_token st = (st, inr tt) →
  enforce_rate_limit cfg (monotonic w) (default "unknown" client)
    (rate_buckets st) = (buckets, inl e) →
  atfood_endpoint cfg w payload client x_atfood_token x_atfood_user st
  = (mkState buckets (atfood_conversations st),
     inl (HTTPException 429 "Rate limit exceeded"))
  ∧ bucket_of buckets (default "unknown" client)
    = popleft_while (monotonic w - RATE_LIMIT_WINDOW_SECONDS cfg)
        (bucket_of (rate_buckets st) (default "unknown" client)).
Proof.
  intros Hpass Hrate.
  pose proof (atfood_endpoint_stages cfg w payload client x_atfood_token
                x_atfood_user st) as Hstage.
  split.
  - inversion Hstage; stages_clash.
  - unfold enforce_rate_limit in Hrate.
    fold (bucket_of (rate_buckets st) (default "unknown" client)) in Hrate.
    destruct (_ <=? _); [| discriminate].
    injection Hrate as <- _. unfold bucket_of at 1.
    by rewrite lookup_insert_eq.
Qed.

Lemma rate_limited_before_action_witness :
  atfood_endpoint
    (mkConfig None (mkDecimal false 0 0) (mkDecimal false 0 0) 1 60)
    (sample_world sample_response true)
    (mkRequest "bake_bread" None None None None None) (Some "10.0.0.7")
    None None (mkState {[ "10.0.0.7" := [90] ]} [])
  = (mkState (<["10.0.0.7" := [90]]> {[ "10.0.0.7" := [90] ]}) [],
     inl (HTTPException 429 "Rate limit exceeded")).
Proof.
  refine (proj1 (rate_limited_before_action
                   (mkConfig None (mkDecimal false 0 0) (mkDecimal false 0 0)
                      1 60)
                   (sample_world sample_response true)
                   (mkRequest "bake_bread" None None None None None)
                   (Some "10.0.0.7") None None
                   (mkState {[ "10.0.0.7" := [90] ]} [])
                   (<["10.0.0.7" := [90]]> {[ "10.0.0.7" := [90] ]})
                   (HTTPException 429 "Rate limit exceeded") _ _));
    reflexivity.
Defined.

(** For an action without a template, the answer does not depend on the
    provider or on the database (neither is reached), only on the clock:
    it is the same in any two worlds with the same clock reading, and it is
    never a success. *)
Theorem unknown_action_ignores_provider (cfg : Config) (w w' : World)
    (payload : AtfoodRequest) (client : option string)
    (x_atfood_token x_atfood_user : option string) (st : State) :
  ACTION_PROMPTS !! action payload = None →
  monotonic w = monotonic w' →
  atfood_endpoint cfg w payload client x_atfood_token x_atfood_user st
  = atfood_endpoint cfg w' payload client x_atfood_token x_atfood_user st
  ∧ ∀ resp,
      (atfood_endpoint cfg w payload client x_atfood_token x_atfood_user
         st).2 ≠ inr resp.
Proof.
  intros Hact Hclock.
  pose proof (atfood_endpoint_stages cfg w payload client x_atfood_token
                x_atfood_user st) as Hstage.
  pose proof (atfood_endpoint_stages cfg w' payload client x_atfood_token
                x_atfood_user st) as Hstage'.
  split.
  - inversion Hstage; inversion Hstage'; stages_clash.
  - intros resp Hout. inversion Hstage;
      try stages_clash;
      try match goal with
        | Heq : _ = atfood_endpoint _ _ _ _ _ _ _ |- _ =>
            rewrite <- Heq in Hout; discriminate
        end.
Qed.

Lemma unknown_action_ignores_provider_witness :
  atfood_endpoint sample_config (sample_world sample_response true)
    (mkRequest "bake_bread" None None None None None) (Some "10.0.0.7")
    None None fresh_state
  = atfood_endpoint sample_config (sample_world blank_response false)
      (mkRequest "bake_bread" None None None None None) (Some "10.0.0.7")
      None None fresh_state.
Proof.
  refine (proj1 (unknown_action_ignores_provider sample_config
                   (sample_world sample_response true)
                   (sample_world blank_response false)
                   (mkRequest "bake_bread" None None None None None)
                   (Some "10.0.0.7") None None fresh_state _ _));
    reflexivity.
Defined.

(** Operations on finite decimals return finite decimals, when they
    return. *)
Lemma fix_finite (d d' : Decimal) :
  is_finite d = true → fix_ d = inr d' → is_finite d' = true.
Proof.
  destruct d as [sign coeff exp | | |]; try done. intros _. unfold fix_.
  repeat case_match; by intros [= <-].
Qed.

Lemma dec_mul_finite (a b d : Decimal) :
  is_finite a = true → is_finite b = true → dec_mul a b = inr d →
  is_finite d = true.
Proof.
  destruct a, b; try done. intros _ _. apply fix_finite. done.
Qed.

Lemma dec_add_finite (a b d : Decimal) :
  is_finite a = true → is_finite b = true → dec_add a b = inr d →
  is_finite d = true.
Proof.
  destruct a, b; try done. intros _ _. unfold dec_add. cbn [check_nans].
  repeat case_match; by apply fix_finite.
Qed.

Lemma dec_truediv_finite (a b d : Decimal) :
  is_finite a = true → is_finite b = true → dec_truediv a b = inr d →
  is_finite d = true.
Proof.
  destruct a, b; try done. intros _ _. unfold dec_truediv. cbn [check_nans].
  repeat case_match; try done; by apply fix_finite.
Qed.

(** With finite prices the cost is finite, when there is one. *)
Lemma total_cost_of_finite (cfg : Config) (p r : Z) (total_cost : Decimal) :
  is_finite (OPEN_INPUT_PRICE_PER_1K cfg) = true →
  is_finite (OPEN_OUTPUT_PRICE_PER_1K cfg) = true →
  total_cost_of cfg p r = inr total_cost →
  is_finite total_cost = true.
Proof.
  intros Hin Hout. unfold total_cost_of.
  destruct (dec_mul (Decimal_of_int p) _) as [| m1] eqn:H1; [done |].
  destruct (dec_mul (Decimal_of_int r) _) as [| m2] eqn:H2; [done |].
  destruct (dec_add m1 m2) as [| total] eqn:H3; [done |].
  apply dec_mul_finite in H1; [| done..].
  apply dec_mul_finite in H2; [| done..].
  apply dec_add_finite in H3; [| done..].
  by apply dec_truediv_finite.
Qed.

(** The table is only ever appended to, and a request that ends with an
    exception leaves the rows as they were, with one exception: a cost that
    is infinite or NaN is stored and then refused by the response model.
    So the rows are as they were whenever the two prices are finite, and
    whenever the request ends with one of the handler's HTTP errors. *)
Theorem failure_stores_nothing (cfg : Config) (w : World)
    (payload : AtfoodRequest) (client : option string)
    (x_atfood_token x_atfood_user : option string) (st : State)
    (e : Raised) :
  let out :=
    atfood_endpoint cfg w payload client x_atfood_token x_atfood_user st in
  out.2 = inl e →
  (is_finite (OPEN_INPUT_PRICE_PER_1K cfg) = true →
   is_finite (OPEN_OUTPUT_PRICE_PER_1K cfg) = true →
     atfood_conversations out.1 = atfood_conversations st)
  ∧ (∀ status_code detail,
       e = HTTPException status_code detail →
       atfood_conversations out.1 = atfood_conversations st)
  ∧ (atfood_conversations out.1 = atfood_conversations st
     ∨ (e = Exception
        ∧ insert_succeeds w = true
        ∧ ∃ row,
            atfood_conversations out.1 = atfood_conversations st ++ [row]
            ∧ is_finite (rec_total_cost row) = false)).
Proof.
  intros out Hout.
  pose proof (atfood_endpoint_stages cfg w payload client x_atfood_token
                x_atfood_user st) as Hstage.
  fold out in Hstage. clearbody out.
  destruct Hstage as [| | | | | | | buckets pb response cost Hpass Hrate
                        Hact Hresp Hcost Htext Hins Hfinite |];
    cbn [fst snd atfood_conversations] in *;
    try (by repeat split; try left).
  injection Hout as <-.
  split; [| split; [done |]].
  - intros Hin Hout.
    pose proof (total_cost_of_finite cfg _ _ _ Hin Hout Hcost). congruence.
  - right. split; [done |]. split; [done |]. by eexists.
Qed.

Lemma failure_stores_nothing_witness :
  atfood_conversations
    (atfood_endpoint sample_config (sample_world sample_response false)
       sample_request (Some "10.0.0.7") None None fresh_state).1
  = atfood_conversations fresh_state.
Proof.
  refine (proj1 (failure_stores_nothing sample_config
                   (sample_world sample_response false) sample_request
                   (Some "10.0.0.7") None None fresh_state
                   (HTTPException 500 "Failed to save conversation") _)
            _ _);
    by vm_compute.
Defined.

(** ** The stored label and prompt *)

Lemma truthy_true (s : string) : truthy s = true ↔ s ≠ "".
Proof. destruct s; cbn; split; congruence. Qed.

Lemma user_id_of_nonempty (x_atfood_user : option string)
    (client_ip : string) :
  user_id_of x_atfood_user client_ip ≠ "".
Proof.
  unfold user_id_of.
  destruct (truthy (strip (py_or x_atfood_user ""))) eqn:Hnamed;
    [by apply truthy_true |].
  destruct (truthy client_ip) eqn:Hip; [by apply truthy_true | done].
Qed.

(** The label under which an exchange is stored is never empty: it is the
    trimmed [X-ATFOOD-USER] header when that is not blank, else the client
    address when that is not empty, else ["demo-user"]. *)
Theorem user_id_never_empty (x_atfood_user : option string)
    (client_ip : string) :
  user_id_of x_atfood_user client_ip ≠ ""
  ∧ (∀ name, x_atfood_user = Some name → strip name ≠ "" →
       user_id_of x_atfood_user client_ip = strip name)
  ∧ ((∀ name, x_atfood_user = Some name → strip name = "") →
       client_ip ≠ "" →
       user_id_of x_atfood_user client_ip = client_ip).
Proof.
  split; [apply user_id_of_nonempty |]. unfold user_id_of. split.
  - intros name -> Hname. cbn [py_or].
    destruct name as [|c name]; [done |]. cbn [truthy].
    by apply truthy_true in Hname as ->.
  - intros Hblank Hip.
    assert (Hnamed : strip (py_or x_atfood_user "") = "").
    { destruct x_atfood_user as [name|]; [| done]. cbn [py_or].
      destruct (truthy name); [by apply Hblank | done]. }
    rewrite Hnamed. cbn [truthy].
    by apply truthy_true in Hip as ->.
Qed.

Lemma user_id_never_empty_witness :
  user_id_of (Some "  chef-42 ") "10.0.0.7" = "chef-42"
  ∧ user_id_of (Some "   ") "10.0.0.7" = "10.0.0.7".
Proof.
  destruct (user_id_never_empty (Some "  chef-42 ") "10.0.0.7")
    as (_ & Hnamed & _).
  destruct (user_id_never_empty (Some "   ") "10.0.0.7") as (_ & _ & Hblank).
  split.
  - apply (Hnamed "  chef-42 "); [reflexivity | discriminate].
  - apply Hblank; [| discriminate].
    intros name [= <-]. reflexivity.
Defined.

(** Every template opens with the header line of the action it is
    registered under. *)
Lemma template_header (a : string) (f : AtfoodRequest → string)
    (req : AtfoodRequest) :
  ACTION_PROMPTS !! a = Some f →
  ∃ rest, f req = "ACTION=" +:+ a +:+ LF +:+ rest.
Proof.
  intros Hf.
  destruct (ACTION_PROMPTS_registered a f Hf)
    as [[-> ->] | [[-> ->] | [[-> ->] | [[-> ->] | [-> ->]]]]];
    by eexists.
Qed.

(** The prompt keeps the text of the template in front; the [Prefs] and
    [Session] lines come after it. *)
Lemma build_prompt_prefix (f : AtfoodRequest → string)
    (payload : AtfoodRequest) :
  ∃ lines, build_prompt f payload = f payload +:+ lines.
Proof.
  unfold build_prompt.
  destruct (prefs payload) as [[|kv d]|];
    destruct (truthy_opt (session_id payload));
    rewrite ?string_app_assoc; try (by eexists).
  all: exists ""; by rewrite string_app_nil_r.
Qed.

(** The prompt stored with a successful exchange opens with the line
    [ACTION=<action>] naming the very action of the request, and the row
    carries a label that is not empty. *)
Theorem stored_prompt_names_action (cfg : Config) (w : World)
    (payload : AtfoodRequest) (client : option string)
    (x_atfood_token x_atfood_user : option string) (st : State)
    (resp : AtfoodResponse) :
  (atfood_endpoint cfg w payload client x_atfood_token x_atfood_user st).2
  = inr resp →
  ∃ row rest,
    atfood_conversations
      (atfood_endpoint cfg w payload client x_atfood_token x_atfood_user
         st).1
    = atfood_conversations st ++ [row]
    ∧ rec_prompt row = "ACTION=" +:+ action payload +:+ LF +:+ rest
    ∧ rec_user_id row ≠ "".
Proof.
  intros Hout.
  pose proof (atfood_endpoint_stages cfg w payload client x_atfood_token
                x_atfood_user st) as Hstage.
  inversion Hstage as [| | | | | | | | buckets pb response cost Hpass Hrate
                         Hact Hresp Hcost Htext Hins Hfinite Heq];
    try match goal with
      | Heq : _ = atfood_endpoint _ _ _ _ _ _ _ |- _ =>
          rewrite <- Heq in Hout; discriminate
      end.
  destruct (template_header _ _ payload Hact) as [rest Hrest].
  destruct (build_prompt_prefix pb payload) as [lines Hlines].
  eexists _, (rest +:+ lines). cbn [fst]. split; [reflexivity |].
  cbn [rec_prompt rec_user_id]. split.
  - rewrite Hlines, Hrest. by rewrite !string_app_assoc.
  - apply user_id_of_nonempty.
Qed.

Lemma stored_prompt_names_action_witness :
  ∃ row rest,
    atfood_conversations
      (atfood_endpoint sample_config (sample_world sample_response true)
         sample_request (Some "10.0.0.7") None None fresh_state).1
    = atfood_conversations fresh_state ++ [row]
    ∧ rec_prompt row = "ACTION=" +:+ "open_ai_kitchen" +:+ LF +:+ rest
    ∧ rec_user_id row ≠ "".
Proof.
  apply (stored_prompt_names_action sample_config
           (sample_world sample_response true) sample_request
           (Some "10.0.0.7") None None fresh_state
           (mkAtfoodResponse "Sear it hard." 1000 500
              (mkDecimal false 500 (-2)))).
  by vm_compute.
Defined.

(** ** Start-up *)

(** When the import-time checks pass, [MODEL] is a non-empty string: it is
    [ATFOOD_MODEL] when that is set and not empty, and [OPEN_MODEL]
    otherwise; the API key and the database URI are set and not empty. *)
Theorem import_checks_pick_model (env : Environ) (model : option string) :
  import_checks env = inr model →
  (∃ name, model = Some name ∧ name ≠ "")
  ∧ (truthy_opt (ATFOOD_MODEL env) = true → model = ATFOOD_MODEL env)
  ∧ (truthy_opt (ATFOOD_MODEL env) = false → model = OPEN_MODEL env)
  ∧ truthy_opt (OPENAI_API_KEY env) = true
  ∧ truthy_opt (DATABASE_URI env) = true.
Proof.
  unfold import_checks, py_or_opt.
  destruct (truthy_opt (OPENAI_API_KEY env)); cbn [negb]; [| discriminate].
  destruct (truthy_opt (OPEN_MODEL env)) eqn:Hopen,
    (truthy_opt (ATFOOD_MODEL env)) eqn:Hatfood; cbn [negb andb];
    try discriminate;
    (destruct (truthy_opt (DATABASE_URI env)); cbn [negb];
     [| discriminate]);
    intros [= <-]; repeat split; try done;
    by apply truthy_opt_true.
Qed.

Lemma import_checks_pick_model_witness :
  ∃ name, Some "gpt-kitchen" = Some name ∧ name ≠ "".
Proof.
  apply (import_checks_pick_model
           (mkEnviron (Some "sk-test") (Some "gpt-kitchen") (Some "")
              (Some "mysql://chef@db/atfood"))
           (Some "gpt-kitchen")).
  reflexivity.
Defined.

Lemma split_comma_comma_free (s : string) :
  has_comma s = false → split_comma s = [s].
Proof.
  induction s as [|c s IH]; [done |]. cbn [has_comma split_comma].
  destruct (Ascii.eqb c ","); [discriminate |].
  intros Hs. by rewrite (IH Hs).
Qed.

Lemma split_comma_app (s rest : string) :
  has_comma s = false →
  split_comma (s +:+ "," +:+ rest) = s :: split_comma rest.
Proof.
  induction s as [|c s IH]; [done |]. cbn [has_comma].
  destruct (Ascii.eqb c ",") eqn:Hc; [discriminate |].
  intros Hs.
  change (String c s +:+ "," +:+ rest)
    with (String c (s +:+ "," +:+ rest)).
  cbn [split_comma]. by rewrite Hc, (IH Hs).
Qed.

Lemma split_comma_concat (origins : list string) :
  origins ≠ [] →
  Forall (λ origin, has_comma origin = false) origins →
  split_comma (String.concat "," origins) = origins.
Proof.
  induction origins as [|origin origins IH]; [done |].
  intros _ Hfree. apply Forall_cons in Hfree as [Horigin Hfree].
  destruct origins as [|origin' origins].
  - cbn [String.concat]. by apply split_comma_comma_free.
  - change (String.concat "," (origin :: origin' :: origins))
      with (origin +:+ "," +:+ String.concat "," (origin' :: origins)).
    rewrite split_comma_app by done. f_equal. by apply IH.
Qed.

(** The list of CORS origins has no empty and no untrimmed entry; and a
    list of origins that are non-empty, trimmed and free of commas is read
    back, as it is, from the setting that joins them with commas. *)
Theorem cors_origins_trimmed_round_trip :
  (∀ setting,
     Forall (λ origin, origin ≠ "" ∧ strip origin = origin)
       (cors_origins setting))
  ∧ (∀ origins,
       Forall (λ origin, origin ≠ "" ∧ strip origin = origin
                         ∧ has_comma origin = false) origins →
       cors_origins (String.concat "," origins) = origins).
Proof.
  split.
  - intros setting. unfold cors_origins.
    apply Forall_forall. intros origin Hin.
    apply list_elem_of_fmap in Hin as (piece & -> & Hpiece).
    apply list_elem_of_filter in Hpiece as [Hpiece _].
    split; [by apply truthy_true | apply strip_idempotent].
  - intros origins Hok. unfold cors_origins.
    destruct origins as [|origin origins]; [done |].
    rewrite split_comma_concat; [| done |].
    2: { eapply Forall_impl; [exact Hok |]. cbn. tauto. }
    rewrite filter_Forall_id.
    + induction Hok as [|o os (Ho & Hs & _) _ IH]; [done |].
      cbn [map]. by rewrite Hs, IH.
    + eapply Forall_impl; [exact Hok |]. cbn.
      intros o (Ho & Hs & _). rewrite Hs. by apply truthy_true.
Qed.

Lemma cors_origins_trimmed_round_trip_witness :
  cors_origins
    (String.concat "," ["https://atfood.example"; "http://localhost:5173"])
  = ["https://atfood.example"; "http://localhost:5173"].
Proof.
  apply (proj2 cors_origins_trimmed_round_trip).
  repeat constructor; discriminate.
Defined.

Lemma lstrip_slash_head (s : string) (rest : string) :
  lstrip_slash s ≠ String "/" rest.
Proof.
  induction s as [|c s IH]; [done |]. cbn [lstrip_slash].
  destruct (Ascii.eqb_spec c "/"); [done | congruence].
Qed.

Lemma int_of_digits_ge (s : string) (acc n : Z) :
  0 ≤ acc → int_of_digits acc s = Some n → acc ≤ n.
Proof.
  revert acc. induction s as [|c s IH]; intros acc Hacc Hn.
  - cbn in Hn. injection Hn as <-. lia.
  - cbn [int_of_digits] in Hn.
    destruct (Z.leb_spec 48 (Z.of_nat (nat_of_ascii c))); [| done].
    destruct (Z.leb_spec (Z.of_nat (nat_of_ascii c)) 57); [| done].
    cbn [andb] in Hn. apply IH in Hn; lia.
Qed.

(** A port that [parsed.port] returns is a number from 0 to 65535. *)
Lemma port_range (parsed : ParseResult) (n : Z) :
  port parsed = inr (Some n) → 0 ≤ n ≤ 65535.
Proof.
  unfold port. destruct (port_text parsed) as [[|c text]|]; try done.
  destruct (int_of_digits 0 (String c text)) as [m|] eqn:Hm; [| done].
  destruct (Z.leb_spec m 65535); [| done].
  intros [= <-]. apply int_of_digits_ge in Hm; lia.
Qed.

(** [_parse_database_uri] accepts exactly the URIs with scheme [mysql] or
    [mysql+pymysql], a non-empty host, user and path, and a port that can
    be read: none, or digits that make a number up to 65535.  When the
    other checks pass and the port cannot be read, the [ValueError] of the
    port is what is raised.  The settings that are returned have that host
    and user, a port from 1 to 65535 (the port of the URI, or 3306 when
    that is missing or 0), and a database name without a leading slash. *)
Theorem parse_database_uri_settings (parsed : ParseResult) :
  ((∃ settings, _parse_database_uri parsed = inr settings)
   ↔ ((scheme parsed = "mysql" ∨ scheme parsed = "mysql+pymysql")
      ∧ truthy_opt (hostname parsed) = true
      ∧ truthy_opt (username parsed) = true
      ∧ path parsed ≠ ""
      ∧ ∃ number, port parsed = inr number))
  ∧ ((scheme parsed = "mysql" ∨ scheme parsed = "mysql+pymysql") →
     truthy_opt (hostname parsed) = true →
     truthy_opt (username parsed) = true →
     path parsed ≠ "" →
     ∀ e, port parsed = inl e → _parse_database_uri parsed = inl e)
  ∧ (∀ settings,
       _parse_database_uri parsed = inr settings →
       hostname parsed = Some (db_host settings)
       ∧ username parsed = Some (db_user settings)
       ∧ db_host settings ≠ "" ∧ db_user settings ≠ ""
       ∧ 1 ≤ db_port settings ≤ 65535
       ∧ (∀ n, port parsed = inr (Some n) → n ≠ 0 → db_port settings = n)
       ∧ (port parsed = inr None ∨ port parsed = inr (Some 0) →
            db_port settings = 3306)
       ∧ (∀ rest, db_database settings ≠ String "/" rest)).
Proof.
  unfold _parse_database_uri.
  destruct (decide (scheme parsed = "mysql"
                    ∨ scheme parsed = "mysql+pymysql")) as [Hscheme | Hscheme].
  2: { rewrite !bool_decide_eq_false_2 by tauto. cbn [orb negb].
       split; [| split; [tauto | discriminate]].
       split; [intros [settings Hs]; discriminate | tauto]. }
  assert (Hok : bool_decide (scheme parsed = "mysql")
                || bool_decide (scheme parsed = "mysql+pymysql") = true).
  { destruct Hscheme as [-> | ->]; reflexivity. }
  rewrite Hok. cbn [negb].
  destruct (truthy_opt (hostname parsed)) eqn:Hhost; cbn [negb orb].
  2: { split; [| split; [intros; discriminate | discriminate]].
       split; [intros [settings Hs]; discriminate |].
       intros (_ & ? & _); discriminate. }
  destruct (truthy_opt (username parsed)) eqn:Huser; cbn [negb orb].
  2: { split; [| split; [intros; discriminate | discriminate]].
       split; [intros [settings Hs]; discriminate |].
       intros (_ & _ & ? & _); discriminate. }
  destruct (truthy (path parsed)) eqn:Hpath; cbn [negb].
  2: { apply truthy_false in Hpath.
       split; [| split; [intros; done | discriminate]].
       split; [intros [settings Hs]; discriminate |].
       intros (_ & _ & _ & ? & _); done. }
  apply truthy_true in Hpath.
  apply truthy_opt_true in Hhost as (host & Hhost & Hhost_ne).
  apply truthy_opt_true in Huser as (user & Huser & Huser_ne).
  pose proof (port_range parsed) as Hrange.
  destruct (port parsed) as [e | number] eqn:Hport.
  - split; [| split; [by intros _ _ _ _ ? [= <-] | discriminate]].
    split; [intros [settings Hs]; discriminate |].
    intros (_ & _ & _ & _ & number & Hnumber). discriminate.
  - split; [| split; [intros; discriminate |]].
    + split; [intros _ | intros _; by eexists].
      repeat split; try done. by exists number.
    + intros settings [= <-].
      cbn [db_host db_user db_port db_database].
      rewrite Hhost, Huser. cbn [default from_option id].
      repeat split; try done.
      * destruct number as [n|]; [| lia].
        specialize (Hrange n eq_refl). destruct (Z.eqb_spec n 0); lia.
      * destruct number as [n|]; [| lia].
        specialize (Hrange n eq_refl). destruct (Z.eqb_spec n 0); lia.
      * intros n [= ->] Hn. by destruct (Z.eqb_spec n 0).
      * by intros [[= ->] | [= ->]].
      * apply lstrip_slash_head.
Qed.

(** [mysql+pymysql://chef@db.internal:3307/atfood] is accepted, and with
    port 99999 the same URI raises the [ValueError] of the port. *)
Lemma parse_database_uri_settings_witness :
  (∃ settings,
     _parse_database_uri
       (mkParseResult "mysql+pymysql" (Some "db.internal") (Some "3307")
          (Some "chef") None "/atfood")
     = inr settings)
  ∧ _parse_database_uri
      (mkParseResult "mysql+pymysql" (Some "db.internal") (Some "99999")
         (Some "chef") None "/atfood")
    = inl ValueError.
Proof.
  split.
  - apply (proj2 (proj1 (parse_database_uri_settings
                           (mkParseResult "mysql+pymysql" (Some "db.internal")
                              (Some "3307") (Some "chef") None "/atfood")))).
    repeat split; try done; [by right | by exists (Some 3307)].
  - apply (proj1 (proj2 (parse_database_uri_settings
                           (mkParseResult "mysql+pymysql" (Some "db.internal")
                              (Some "99999") (Some "chef") None
                              "/atfood"))));
      try done. by right.
Defined.

(** ** Schema migration *)

Lemma required_columns_NoDup : NoDup (map fst required_columns).
Proof. apply (bool_decide_unpack _). by vm_compute. Qed.

(** Whether the table has a column that the database takes for [column]. *)
Lemma existsb_same_column (same_column_name : string → string → bool)
    (column : string) (columns : list (string * string)) :
  existsb (λ name, same_column_name name column) (map fst columns) = true
  ↔ ∃ name, name ∈ map fst columns ∧ same_column_name name column = true.
Proof.
  rewrite existsb_exists. split; intros (name & Hin & Hsame); exists name;
    (split; [| done]); by apply list_elem_of_In.
Qed.

(** On an existing table, and as long as no column at hand is taken for a
    missing one, the loop adds, after the columns that are there and in
    the order of [required], exactly the listed columns whose names were
    not found, and no statement fails. *)
Lemma add_missing_columns_spec (same_column_name : string → string → bool)
    (existing : list string) (required columns : list (string * string)) :
  NoDup (map fst required) →
  (∀ name column,
     name ∈ map fst columns → column ∈ required →
     same_column_name name column.1 = true → column.1 ∈ existing) →
  (∀ column column',
     column ∈ required → column' ∈ required →
     same_column_name column.1 column'.1 = true → column.1 = column'.1) →
  add_missing_columns same_column_name existing required (Some columns)
  = (Some (columns ++ filter (λ column, column.1 ∉ existing) required),
     inr tt).
Proof.
  revert columns. induction required as [|column required IH];
    intros columns Hnodup Hknown Hdistinct.
  - cbn. by rewrite app_nil_r.
  - cbn [map] in Hnodup. apply NoDup_cons in Hnodup as [Hfresh Hnodup].
    cbn [add_missing_columns]. rewrite filter_cons.
    destruct (decide (column.1 ∈ existing)) as [Hin | Hnotin].
    + rewrite decide_False by tauto. apply IH; [done | |].
      * intros name column' Hname Hcolumn'. apply Hknown; [done |].
        by apply elem_of_cons; right.
      * intros c c' Hc Hc'. apply Hdistinct; by apply elem_of_cons; right.
    + rewrite decide_True by done.
      unfold alter_table_add_column.
      destruct (existsb _ (map fst columns)) eqn:Htaken.
      { apply existsb_same_column in Htaken as (name & Hname & Hsame).
        exfalso. apply Hnotin. apply (Hknown name column); [done | | done].
        by apply elem_of_cons; left. }
      rewrite IH; [by rewrite <- app_assoc | done | |].
      * intros name column' Hname Hcolumn' Hsame.
        rewrite map_app in Hname. apply elem_of_app in Hname as [Hname | Hname].
        -- apply (Hknown name column'); [done | | done].
           by apply elem_of_cons; right.
        -- cbn in Hname. apply list_elem_of_singleton in Hname as ->.
           exfalso. apply Hfresh.
           rewrite (Hdistinct column column'); [| by apply elem_of_cons; left
                                                | by apply elem_of_cons; right
                                                | done].
           apply list_elem_of_fmap. by exists column'.
      * intros c c' Hc Hc'. apply Hdistinct; by apply elem_of_cons; right.
Qed.

(** The loop only appends to the table. *)
Lemma add_missing_columns_grows (same_column_name : string → string → bool)
    (existing : list string) (required columns : list (string * string)) :
  ∃ added,
    (add_missing_columns same_column_name existing required
       (Some columns)).1
    = Some (columns ++ added)
    ∧ Forall (λ column, column ∈ required) added.
Proof.
  revert columns. induction required as [|column required IH];
    intros columns.
  - exists []. split; [cbn; by rewrite app_nil_r | constructor].
  - cbn [add_missing_columns].
    destruct (decide (column.1 ∈ existing)).
    + destruct (IH columns) as (added & -> & Hadded). exists added.
      split; [done |]. eapply Forall_impl; [exact Hadded |].
      cbn. intros c Hc. by apply elem_of_cons; right.
    + unfold alter_table_add_column. destruct (existsb _ _).
      * exists []. split; [cbn; by rewrite app_nil_r | constructor].
      * destruct (IH (columns ++ [column])) as (added & -> & Hadded).
        exists (column :: added). split; [by rewrite <- app_assoc |].
        constructor; [by apply elem_of_cons; left |].
        eapply Forall_impl; [exact Hadded |].
        cbn. intros c Hc. by apply elem_of_cons; right.
Qed.

(** A missing column that the database takes for a column of the table
    makes the loop fail. *)
Lemma add_missing_columns_clash (same_column_name : string → string → bool)
    (existing : list string) (required columns : list (string * string))
    (name : string) (column : string * string) :
  name ∈ map fst columns → column ∈ required → column.1 ∉ existing →
  same_column_name name column.1 = true →
  (add_missing_columns same_column_name existing required
     (Some columns)).2
  = inl Exception.
Proof.
  revert columns. induction required as [|c required IH];
    intros columns Hname Hcolumn Hmissing Hsame.
  { by apply elem_of_nil in Hcolumn. }
  cbn [add_missing_columns].
  destruct (decide (c.1 ∈ existing)) as [Hin | Hnotin].
  - apply elem_of_cons in Hcolumn as [-> | Hcolumn]; [done |]. by apply IH.
  - unfold alter_table_add_column.
    destruct (existsb _ (map fst columns)) eqn:Htaken; [done |].
    apply elem_of_cons in Hcolumn as [-> | Hcolumn].
    + assert (existsb (λ name0, same_column_name name0 c.1)
                (map fst columns) = true) as Hclash
        by (apply existsb_same_column; by exists name).
      congruence.
    + apply IH; try done. rewrite map_app. apply elem_of_app. by left.
Qed.

(** Running the loop again on the table it left, with the column names of
    that table, changes nothing and ends the same way. *)
Lemma add_missing_columns_rerun (same_column_name : string → string → bool)
    (required : list (string * string)) (existing : list string)
    (columns columns' : list (string * string)) (r : Raised + unit) :
  NoDup (map fst required) →
  (∀ name, name ∈ existing → name ∈ map fst columns) →
  (∀ column, column ∈ required → column.1 ∈ map fst columns →
             column.1 ∈ existing) →
  add_missing_columns same_column_name existing required (Some columns)
  = (Some columns', r) →
  add_missing_columns same_column_name (map fst columns') required
    (Some columns')
  = (Some columns', r).
Proof.
  revert columns. induction required as [|c required IH];
    intros columns Hnodup Hsub Hknown Hrun.
  { cbn in Hrun. by injection Hrun as <- <-. }
  cbn [map] in Hnodup. apply NoDup_cons in Hnodup as [Hfresh Hnodup].
  cbn [add_missing_columns] in Hrun |- *.
  destruct (decide (c.1 ∈ existing)) as [Hin | Hnotin].
  - destruct (add_missing_columns_grows same_column_name existing required
                columns) as (added & Hgrow & _).
    rewrite Hrun in Hgrow. cbn [fst] in Hgrow. injection Hgrow as ->.
    rewrite decide_True.
    2: { rewrite map_app. apply elem_of_app. left. by apply Hsub. }
    apply (IH columns); try done.
    intros column Hcolumn. apply Hknown. by apply elem_of_cons; right.
  - unfold alter_table_add_column in Hrun.
    destruct (existsb _ (map fst columns)) eqn:Htaken.
    + injection Hrun as <- <-.
      rewrite decide_False.
      2: { intros Hin. apply Hnotin, Hknown; [| done].
           by apply elem_of_cons; left. }
      unfold alter_table_add_column. by rewrite Htaken.
    + destruct (add_missing_columns_grows same_column_name existing required
                  (columns ++ [c])) as (added & Hgrow & _).
      rewrite Hrun in Hgrow. cbn [fst] in Hgrow. injection Hgrow as ->.
      rewrite decide_True.
      2: { rewrite !map_app. apply elem_of_app. left. apply elem_of_app.
           right. by apply list_elem_of_singleton. }
      apply (IH (columns ++ [c])); try done.
      * intros name Hname. rewrite map_app. apply elem_of_app. left.
        by apply Hsub.
      * intros column Hcolumn Hin. rewrite map_app in Hin.
        apply elem_of_app in Hin as [Hin | Hin].
        -- apply Hknown; [by apply elem_of_cons; right | done].
        -- cbn in Hin. apply list_elem_of_singleton in Hin.
           exfalso. apply Hfresh. rewrite <- Hin.
           apply list_elem_of_fmap. by exists column.
Qed.

(** What start-up does without a table. *)
Lemma lifespan_creates (same_column_name : string → string → bool) :
  lifespan same_column_name true None = (Some CREATE_TABLE_COLUMNS, inr tt).
Proof. reflexivity. Qed.

(** What start-up does to a table when no column at hand is taken for a
    missing one. *)
Lemma lifespan_result (same_column_name : string → string → bool)
    (columns : list (string * string)) :
  (∀ name column,
     name ∈ map fst columns ++ map fst required_columns →
     column ∈ required_columns →
     same_column_name name column.1 = true → name = column.1) →
  lifespan same_column_name true (Some columns)
  = (Some
       (columns
        ++ filter (λ column, column.1 ∉ map fst columns) required_columns),
     inr tt).
Proof.
  intros Hclash.
  unfold lifespan, _ensure_conversation_table, _ensure_conversation_columns.
  cbn [create_table_if_not_exists default from_option id].
  apply add_missing_columns_spec; [apply required_columns_NoDup | |].
  - intros name column Hname Hcolumn Hsame.
    rewrite <- (Hclash name column); [done | | done | done].
    apply elem_of_app. by left.
  - intros column column' Hcolumn Hcolumn'. apply Hclash; [| done].
    apply elem_of_app. right. apply list_elem_of_fmap. by exists column.
Qed.

(** Start-up on a reachable database.  Without a table, the table of the
    [CREATE TABLE] statement is made.  A table that was there is extended
    when the database takes none of its columns, and no listed column, for
    a usage column of another spelling: start-up does not fail and leaves
    a table that has the three usage columns; the table keeps its columns,
    in their order, in front; what is added after them are usage columns
    that were missing, and nothing else.  But when the table lacks a usage
    column as the code spells it and has a column that the database takes
    for it (as MySQL takes [TOTAL_COST] for [total_cost]), the
    [ALTER TABLE] is refused and start-up fails, the old columns still in
    front. *)
Theorem lifespan_backfills_usage_columns
    (same_column_name : string → string → bool)
    (schema : option (list (string * string))) :
  (schema = None →
     lifespan same_column_name true schema
     = (Some CREATE_TABLE_COLUMNS, inr tt))
  ∧ (∀ columns,
       schema = Some columns →
       (∀ name column,
          name ∈ map fst columns ++ map fst required_columns →
          column ∈ required_columns →
          same_column_name name column.1 = true → name = column.1) →
       ∃ added,
         lifespan same_column_name true schema
         = (Some (columns ++ added), inr tt)
         ∧ Forall (λ column, column.1 ∈ map fst (columns ++ added))
             required_columns
         ∧ Forall (λ column, column ∈ required_columns
                             ∧ column.1 ∉ map fst columns) added
         ∧ ∀ name,
             name ∉ map fst columns →
             name ∉ map fst required_columns →
             name ∉ map fst (columns ++ added))
  ∧ (∀ columns name column,
       schema = Some columns →
       name ∈ map fst columns →
       column ∈ required_columns →
       column.1 ∉ map fst columns →
       same_column_name name column.1 = true →
       ∃ added,
         lifespan same_column_name true schema
         = (Some (columns ++ added), inl Exception)).
Proof.
  split; [by intros -> |]. split.
  - intros columns -> Hclash. eexists.
    split; [by apply lifespan_result |]. split; [| split].
    + apply Forall_forall. intros column Hcolumn. rewrite map_app.
      destruct (decide (column.1 ∈ map fst columns)) as [Hin | Hnotin].
      * apply elem_of_app. by left.
      * apply elem_of_app. right. apply list_elem_of_fmap.
        exists column. split; [done |]. by apply list_elem_of_filter.
    + apply Forall_forall. intros column Hcolumn.
      by apply list_elem_of_filter in Hcolumn as [? ?].
    + intros name Hold Hreq. rewrite map_app.
      intros [Hin | Hin]%elem_of_app; [done |].
      apply Hreq. apply list_elem_of_fmap in Hin as (column & -> & Hin).
      apply list_elem_of_fmap. exists column. split; [done |].
      by apply list_elem_of_filter in Hin as [_ ?].
  - intros columns name column -> Hname Hcolumn Hmissing Hsame.
    unfold lifespan, _ensure_conversation_table,
      _ensure_conversation_columns.
    cbn [create_table_if_not_exists default from_option id].
    destruct (add_missing_columns_grows same_column_name (map fst columns)
                required_columns columns) as (added & Hgrow & _).
    pose proof (add_missing_columns_clash same_column_name
                  (map fst columns) required_columns columns name column
                  Hname Hcolumn Hmissing Hsame) as Hfail.
    exists added.
    destruct (add_missing_columns _ _ _ _) as [schema' r].
    cbn [fst snd] in *. by rewrite Hgrow, Hfail.
Qed.

(** A table of an older release gets its three usage columns; a table
    whose cost column is spelled [TOTAL_COST] makes start-up fail on a
    database that ignores case, after the two token columns were added. *)
Lemma lifespan_backfills_usage_columns_witness :
  (∃ added,
     lifespan same_name_ignoring_case true
       (Some [("id", "BIGINT AUTO_INCREMENT PRIMARY KEY");
              ("prompt", "TEXT NOT NULL")])
     = (Some ([("id", "BIGINT AUTO_INCREMENT PRIMARY KEY");
               ("prompt", "TEXT NOT NULL")] ++ added), inr tt)
     ∧ Forall (λ column,
                 column.1
                 ∈ map fst ([("id", "BIGINT AUTO_INCREMENT PRIMARY KEY");
                             ("prompt", "TEXT NOT NULL")] ++ added))
         required_columns)
  ∧ (∃ added,
       lifespan same_name_ignoring_case true
         (Some [("id", "BIGINT AUTO_INCREMENT PRIMARY KEY");
                ("TOTAL_COST", "DECIMAL(12,6) DEFAULT 0")])
       = (Some ([("id", "BIGINT AUTO_INCREMENT PRIMARY KEY");
                 ("TOTAL_COST", "DECIMAL(12,6) DEFAULT 0")] ++ added),
          inl Exception)).
Proof.
  split.
  - destruct (proj1 (proj2 (lifespan_backfills_usage_columns
                              same_name_ignoring_case
                              (Some [("id",
                                      "BIGINT AUTO_INCREMENT PRIMARY KEY");
                                     ("prompt", "TEXT NOT NULL")])))
                [("id", "BIGINT AUTO_INCREMENT PRIMARY KEY");
                 ("prompt", "TEXT NOT NULL")] eq_refl)
      as (added & Hrun & Hall & _).
    + intros name column Hname Hcolumn.
      cbn in Hname.
      repeat (apply elem_of_cons in Hname as [-> | Hname]);
        [| | | | | by apply elem_of_nil in Hname];
        repeat (apply elem_of_cons in Hcolumn as [-> | Hcolumn]);
        try (by apply elem_of_nil in Hcolumn);
        first [by intros _ | by vm_compute].
    + by exists added.
  - apply (proj2 (proj2 (lifespan_backfills_usage_columns
                           same_name_ignoring_case
                           (Some [("id",
                                   "BIGINT AUTO_INCREMENT PRIMARY KEY");
                                  ("TOTAL_COST",
                                   "DECIMAL(12,6) DEFAULT 0")])))
             [("id", "BIGINT AUTO_INCREMENT PRIMARY KEY");
              ("TOTAL_COST", "DECIMAL(12,6) DEFAULT 0")]
             "TOTAL_COST" ("total_cost", "DECIMAL(12,6) DEFAULT 0"));
      try done.
    + apply (bool_decide_unpack _). by vm_compute.
    + apply (bool_decide_unpack _). by vm_compute.
    + apply (bool_decide_unpack _). by vm_compute.
Defined.

(** Running start-up a second time changes nothing: it leaves the table
    of the first run and ends as the first run did, whatever the database
    takes for the same column name. *)
Theorem lifespan_idempotent (same_column_name : string → string → bool)
    (schema : option (list (string * string))) :
  lifespan same_column_name true (lifespan same_column_name true schema).1
  = lifespan same_column_name true schema.
Proof.
  destruct schema as [columns|]; [| reflexivity].
  unfold lifespan, _ensure_conversation_table, _ensure_conversation_columns.
  cbn [create_table_if_not_exists default from_option id].
  destruct (add_missing_columns_grows same_column_name (map fst columns)
              required_columns columns) as (added & Hgrow & _).
  destruct (add_missing_columns same_column_name (map fst columns)
              required_columns (Some columns)) as [schema' r] eqn:Hrun.
  cbn [fst] in Hgrow |- *. subst schema'.
  cbn [default from_option id].
  apply (add_missing_columns_rerun same_column_name required_columns
           (map fst columns) columns);
    [apply required_columns_NoDup | done..].
Qed.

(** ** More on the cost *)

Lemma fix_zero (sign : bool) (exp : Z) :
  fix_ (mkDecimal sign 0 exp)
  = inr (mkDecimal sign 0 (Z.min (Z.max exp Etiny) Emax)).
Proof. reflexivity. Qed.

Lemma is_zero_true (d : Decimal) :
  is_zero d = true ↔ ∃ sign exp, d = mkDecimal sign 0 exp.
Proof.
  destruct d as [sign coeff exp | | |]; cbn [is_zero].
  - rewrite Z.eqb_eq. split; [intros ->; by eexists _, _ |].
    by intros (? & ? & [= _ -> _]).
  - split; [done | by intros (? & ? & ?)].
  - split; [done | by intros (? & ? & ?)].
  - split; [done | by intros (? & ? & ?)].
Qed.

(** With both prices zero (the default of both settings) the cost
    expression raises nothing and the cost is zero, for every pair of
    token counts, however large. *)
Theorem zero_prices_cost_nothing (cfg : Config)
    (prompt_tokens response_tokens : Z) :
  is_zero (OPEN_INPUT_PRICE_PER_1K cfg) = true →
  is_zero (OPEN_OUTPUT_PRICE_PER_1K cfg) = true →
  ∃ cost,
    total_cost_of cfg prompt_tokens response_tokens = inr cost
    ∧ is_zero cost = true.
Proof.
  intros (s1 & e1 & Hin)%is_zero_true (s2 & e2 & Hout)%is_zero_true.
  unfold total_cost_of. rewrite Hin, Hout.
  unfold dec_mul, Decimal_of_int. cbn [check_nans].
  rewrite !Z.mul_0_r, !fix_zero.
  unfold dec_add. cbn [check_nans Z.eqb andb]. rewrite fix_zero.
  unfold dec_truediv. cbn [check_nans Z.eqb]. rewrite fix_zero.
  by eexists.
Qed.

Lemma zero_prices_cost_nothing_witness :
  ∃ cost,
    total_cost_of
      (mkConfig None (mkDecimal false 0 0) (mkDecimal false 0 0) 30 60)
      123456789 987654321 = inr cost
    ∧ is_zero cost = true.
Proof.
  apply (zero_prices_cost_nothing
           (mkConfig None (mkDecimal false 0 0) (mkDecimal false 0 0) 30 60)
           123456789 987654321); reflexivity.
Defined.

Lemma round_half_even_nonneg (n k : Z) : 0 ≤ n → 0 ≤ round_half_even n k.
Proof.
  intros Hn. unfold round_half_even.
  assert (0 ≤ n / 10 ^ k).
  { apply Z_div_nonneg_nonneg; [done |]. apply Z.pow_nonneg. lia. }
  destruct (_ || _); lia.
Qed.

(** Bringing a number into the context keeps its sign; the only signal it
    can raise is [Overflow]. *)
Lemma fix_nonneg (sign : bool) (coeff exp : Z) :
  0 ≤ coeff →
  fix_ (mkDecimal sign coeff exp) = inl Overflow
  ∨ ∃ coeff' exp',
      fix_ (mkDecimal sign coeff exp) = inr (mkDecimal sign coeff' exp')
      ∧ 0 ≤ coeff'.
Proof.
  intros Hc. unfold fix_.
  destruct (coeff =? 0); [right; by eexists 0, _ |].
  destruct (Etop <? _); [by left |].
  destruct (exp <? _); [| right; by eexists _, _].
  set (digits := num_digits coeff + exp - _).
  destruct (digits <? 0).
  - pose proof (round_half_even_nonneg 1 (num_digits 1 - 0) ltac:(lia)).
    destruct (prec <? _).
    + destruct (Etop <? _); [by left |]. right. eexists _, _.
      split; [done |]. apply Z_div_nonneg_nonneg; lia.
    + destruct (Etop <? _); [by left |]. right. by eexists _, _.
  - pose proof (round_half_even_nonneg coeff (num_digits coeff - digits) Hc).
    destruct (prec <? _).
    + destruct (Etop <? _); [by left |]. right. eexists _, _.
      split; [done |]. apply Z_div_nonneg_nonneg; lia.
    + destruct (Etop <? _); [by left |]. right. by eexists _, _.
Qed.

Lemma normalize_nonneg (ca ea cb eb : Z) :
  0 ≤ ca → 0 ≤ cb →
  0 ≤ (normalize ca ea cb eb).1.1 ∧ 0 ≤ (normalize ca ea cb eb).1.2.
Proof.
  intros Ha Hb. unfold normalize.
  assert (Hpow : ∀ k, 0 ≤ 10 ^ k) by (intros k; apply Z.pow_nonneg; lia).
  destruct (ea <? eb); destruct (_ <? _); cbn [fst snd];
    match goal with
    | |- context [10 ^ ?k] => pose proof (Hpow k)
    end; split; nia.
Qed.

Lemma strip_zeros_nonneg (rounds : nat) (coeff exp : Z) :
  0 ≤ coeff → 0 ≤ (strip_zeros rounds coeff exp).1.
Proof.
  revert coeff exp. induction rounds as [|rounds IH]; intros coeff exp Hc;
    [done |].
  cbn [strip_zeros]. destruct (_ =? _); [| done].
  apply IH. apply Z_div_nonneg_nonneg; lia.
Qed.

Lemma dec_mul_nonneg (n coeff exp : Z) :
  0 ≤ n → 0 ≤ coeff →
  dec_mul (Decimal_of_int n) (mkDecimal false coeff exp) = inl Overflow
  ∨ ∃ coeff' exp',
      dec_mul (Decimal_of_int n) (mkDecimal false coeff exp)
      = inr (mkDecimal false coeff' exp')
      ∧ 0 ≤ coeff'.
Proof.
  intros Hn Hc. unfold dec_mul, Decimal_of_int. cbn [check_nans].
  destruct (Z.ltb_spec n 0); [lia |]. cbn [xorb].
  apply fix_nonneg. nia.
Qed.

Lemma dec_add_nonneg (ca ea cb eb : Z) :
  0 ≤ ca → 0 ≤ cb →
  dec_add (mkDecimal false ca ea) (mkDecimal false cb eb) = inl Overflow
  ∨ ∃ coeff exp,
      dec_add (mkDecimal false ca ea) (mkDecimal false cb eb)
      = inr (mkDecimal false coeff exp)
      ∧ 0 ≤ coeff.
Proof.
  intros Ha Hb. unfold dec_add. cbn [check_nans andb].
  assert (Hpow : ∀ k, 0 ≤ 10 ^ k) by (intros k; apply Z.pow_nonneg; lia).
  destruct (ca =? 0), (cb =? 0); cbn [andb].
  - by apply fix_nonneg.
  - apply fix_nonneg.
    match goal with |- context [10 ^ ?k] => pose proof (Hpow k) end. nia.
  - apply fix_nonneg.
    match goal with |- context [10 ^ ?k] => pose proof (Hpow k) end. nia.
  - destruct (normalize_nonneg ca ea cb eb Ha Hb) as [Hna Hnb].
    destruct (normalize ca ea cb eb) as [[na nb] nexp]. cbn [fst snd] in *.
    unfold signed_int. destruct (Z.eqb_spec (na + nb) 0).
    + by apply fix_nonneg.
    + destruct (Z.ltb_spec (na + nb) 0); [lia |]. apply fix_nonneg. lia.
Qed.

Lemma dec_truediv_1000_nonneg (coeff exp : Z) :
  0 ≤ coeff →
  dec_truediv (mkDecimal false coeff exp) (mkDecimal false 1000 0)
  = inl Overflow
  ∨ ∃ coeff' exp',
      dec_truediv (mkDecimal false coeff exp) (mkDecimal false 1000 0)
      = inr (mkDecimal false coeff' exp')
      ∧ 0 ≤ coeff'.
Proof.
  intros Hc. unfold dec_truediv. cbn [check_nans xorb].
  change (1000 =? 0) with false. cbv iota.
  destruct (coeff =? 0); [by apply fix_nonneg |].
  set (shift := num_digits 1000 - num_digits coeff + prec + 1).
  assert (Hdiv : ∀ x y, 0 ≤ x → 0 ≤ y → 0 ≤ (Z.div_eucl x y).1).
  { intros x y Hx Hy. rewrite div_eucl_div_mod. cbn [fst].
    by apply Z_div_nonneg_nonneg. }
  assert (Hcoeff :
            0 ≤ (if 0 <=? shift
                 then Z.div_eucl (coeff * 10 ^ shift) 1000
                 else Z.div_eucl coeff (1000 * 10 ^ (- shift))).1).
  { assert (0 ≤ 10 ^ shift) by (apply Z.pow_nonneg; lia).
    assert (0 ≤ 10 ^ (- shift)) by (apply Z.pow_nonneg; lia).
    destruct (0 <=? shift); apply Hdiv; nia. }
  destruct (if 0 <=? shift then _ else _) as [quotient remainder].
  cbn [fst] in Hcoeff.
  destruct (remainder =? 0).
  - pose proof (strip_zeros_nonneg
                  (Z.to_nat (exp - 0 - (exp - 0 - shift)))
                  quotient (exp - 0 - shift) Hcoeff) as Hstrip.
    destruct (strip_zeros _ _ _) as [coeff' exp']. cbn [fst] in Hstrip.
    by apply fix_nonneg.
  - apply fix_nonneg. destruct (_ =? _); lia.
Qed.

(** For token counts and finite prices that are not negative, the cost
    expression either raises [Overflow] (and nothing else), or returns a
    finite cost that is not negative, rounded or not. *)
Theorem cost_never_negative (cfg : Config)
    (prompt_tokens response_tokens : Z) (c1 e1 c2 e2 : Z) :
  0 ≤ prompt_tokens → 0 ≤ response_tokens →
  OPEN_INPUT_PRICE_PER_1K cfg = mkDecimal false c1 e1 → 0 ≤ c1 →
  OPEN_OUTPUT_PRICE_PER_1K cfg = mkDecimal false c2 e2 → 0 ≤ c2 →
  total_cost_of cfg prompt_tokens response_tokens = inl Overflow
  ∨ ∃ coeff exp,
      total_cost_of cfg prompt_tokens response_tokens
      = inr (mkDecimal false coeff exp)
      ∧ 0 ≤ coeff.
Proof.
  intros Hp Hr Hin Hc1 Hout Hc2. unfold total_cost_of. rewrite Hin, Hout.
  destruct (dec_mul_nonneg prompt_tokens c1 e1 Hp Hc1)
    as [-> | (m1 & x1 & -> & Hm1)]; [by left |].
  destruct (dec_mul_nonneg response_tokens c2 e2 Hr Hc2)
    as [-> | (m2 & x2 & -> & Hm2)]; [by left |].
  destruct (dec_add_nonneg m1 x1 m2 x2 Hm1 Hm2)
    as [-> | (total & x & -> & Htotal)]; [by left |].
  by apply dec_truediv_1000_nonneg.
Qed.

(** Seven prompt tokens at 0.3333333333333333333333333333 cost a rounded,
    positive amount; two at 9E+999999 overflow. *)
Lemma cost_never_negative_witness :
  (total_cost_of long_price_config 7 0 = inl Overflow
   ∨ ∃ coeff exp,
       total_cost_of long_price_config 7 0 = inr (mkDecimal false coeff exp)
       ∧ 0 ≤ coeff)
  ∧ (total_cost_of
       (mkConfig None (mkDecimal false 9 999999) (mkDecimal false 0 0) 30 60)
       2 0 = inl Overflow
     ∨ ∃ coeff exp,
         total_cost_of
           (mkConfig None (mkDecimal false 9 999999) (mkDecimal false 0 0)
              30 60) 2 0
         = inr (mkDecimal false coeff exp)
         ∧ 0 ≤ coeff).
Proof.
  split.
  - apply (cost_never_negative long_price_config 7 0
             3333333333333333333333333333 (-28) 0 0);
      first [reflexivity | discriminate].
  - apply (cost_never_negative
             (mkConfig None (mkDecimal false 9 999999) (mkDecimal false 0 0)
                30 60) 2 0 9 999999 0 0);
      first [reflexivity | discriminate].
Defined.

(** ** More on the output text *)

Lemma concat_empty_cons (part : string) (parts : list string) :
  String.concat "" (part :: parts) = part +:+ String.concat "" parts.
Proof.
  destruct parts as [|next parts]; [| reflexivity].
  cbn [String.concat]. by rewrite string_app_nil_r.
Qed.

Lemma concat_empty_app (parts parts' : list string) :
  String.concat "" (parts ++ parts')
  = String.concat "" parts +:+ String.concat "" parts'.
Proof.
  induction parts as [|part parts IH]; [done |].
  change ((part :: parts) ++ parts') with (part :: (parts ++ parts')).
  by rewrite !concat_empty_cons, IH, string_app_assoc.
Qed.

Lemma message_fragments_app (items items' : list OutputItem) :
  message_fragments (items ++ items')
  = message_fragments items ++ message_fragments items'.
Proof.
  unfold message_fragments. by rewrite filter_app, flat_map_app.
Qed.

(** Without a top-level text, the text of an output list made of two
    parts is the text of the first followed by the text of the second:
    every item adds its fragments where it stands. *)
Theorem extract_output_text_app (top : option string)
    (items items' : list OutputItem) (u : option Usage) :
  truthy_opt top = false →
  extract_output_text (mkResponse top (Some (items ++ items')) u)
  = extract_output_text (mkResponse top (Some items) u)
    +:+ extract_output_text (mkResponse top (Some items') u).
Proof.
  intros Htop. unfold extract_output_text.
  cbn [output_text output default from_option id]. rewrite Htop.
  by rewrite !fold_collect_item, !app_nil_l, message_fragments_app,
    concat_empty_app.
Qed.

Lemma extract_output_text_app_witness :
  extract_output_text
    (mkResponse (Some "")
       (Some ([ mkItem (Some "reasoning") None;
                mkItem (Some "message")
                  (Some [mkContent (Some "output_text") (Some "Salt ")]) ]
              ++ [ mkItem (Some "message")
                     (Some [ mkContent (Some "refusal") (Some "no");
                             mkContent (Some "output_text")
                               (Some "early.") ]) ]))
       None)
  = "Salt " +:+ "early.".
Proof.
  rewrite (extract_output_text_app (Some "")
             [ mkItem (Some "reasoning") None;
               mkItem (Some "message")
                 (Some [mkContent (Some "output_text") (Some "Salt ")]) ]
             [ mkItem (Some "message")
                 (Some [ mkContent (Some "refusal") (Some "no");
                         mkContent (Some "output_text") (Some "early.") ]) ]
             None); reflexivity.
Defined.
